(** * The PC-DARTS search cell ([src/pc_darts.py], class [PCDARTSSearchSpace])

    A shallow embedding of the cell's constructor and forward pass.

    - Python integers are [Z]; list positions produced by [range] are [nat].
    - Tensor entries are real numbers ([R]): the arithmetic of the numeric
      backend is taken exact, so rounding, overflow and underflow of
      floating point are outside this development.
    - A feature map is a four-dimensional tensor (batch, channels, height,
      width) stored row-major, as the backend stores it.
    - [self] is threaded explicitly: a method is a function from the cell to
      an outcome and the cell afterwards, and a raised exception is an
      outcome. *)

From Stdlib Require Import Reals Lra Lia ZArith.
From stdpp Require Import base list strings gmap.

(** ** Outcomes of backend calls *)

Inductive exn : Type :=
| IndexError     (* subscript out of range *)
| RuntimeError   (* the backend rejects a shape or a size *)
| TypeError.     (* a value that is not a tensor where one is needed *)

Inductive result (A : Type) : Type :=
| Ok (a : A)
| Raise (e : exn).
Arguments Ok {A} a.
Arguments Raise {A} e.

Definition rbind {A B} (r : result A) (k : A → result B) : result B :=
  match r with
  | Ok a => k a
  | Raise e => Raise e
  end.

Declare Scope result_scope.
Delimit Scope result_scope with res.
Notation "x <- r ;; k" := (rbind r (λ x, k))
  (at level 100, r at next level, right associativity) : result_scope.

(** [l[i]] for a position [i >= 0]. *)
Definition getitem {A} (l : list A) (i : nat) : result A :=
  match l !! i with
  | Some a => Ok a
  | None => Raise IndexError
  end.

(** [l[-1]]. *)
Definition last_item {A} (l : list A) : result A :=
  match last l with
  | Some a => Ok a
  | None => Raise IndexError
  end.

(** A left-to-right loop over [l] that threads an accumulator and stops at
    the first exception. *)
Fixpoint rfold {A X} (f : A → X → result A) (l : list X) (a : A) : result A :=
  match l with
  | [] => Ok a
  | x :: l' => rbind (f a x) (rfold f l')
  end.

(** ** Tensors *)

Record tensor : Type := Tensor {
  batch : nat;
  channels : nat;
  height : nat;
  width : nat;
  values : list R
}.

Definition shape (t : tensor) : nat * nat * nat * nat :=
  (batch t, channels t, height t, width t).

Definition same_shape (a b : tensor) : bool :=
  (batch a =? batch b) && (channels a =? channels b)
  && (height a =? height b) && (width a =? width b).

(** [t[n][c][h][w]], row-major. *)
Definition item (t : tensor) (n c h w : nat) : R :=
  nth (((n * channels t + c) * height t + h) * width t + w) (values t) 0%R.

(** The tensor of shape [(n, c, h, w)] whose entry at a position is [f] of
    that position. *)
Definition full (n c h w : nat) (f : nat → nat → nat → nat → R) : tensor :=
  Tensor n c h w
    (n' ← seq 0 n; c' ← seq 0 c; h' ← seq 0 h; w' ← seq 0 w; [f n' c' h' w']).

Fixpoint Rsum (l : list R) : R :=
  match l with
  | [] => 0%R
  | a :: l' => (a + Rsum l')%R
  end.

(** [F.softmax(v, dim=-1)] on a one-dimensional [v]. *)
Definition softmax (v : list R) : list R :=
  (λ a, exp a / Rsum (exp <$> v))%R <$> v.

(** [w * t] for a zero-dimensional [w]: every entry is scaled. *)
Definition mul_scalar (w : R) (t : tensor) : tensor :=
  Tensor (batch t) (channels t) (height t) (width t) (Rmult w <$> values t).

(** [0 + t], the first step of Python's [sum]: the int is added to every
    entry. *)
Definition radd_zero (t : tensor) : tensor :=
  Tensor (batch t) (channels t) (height t) (width t)
    ((λ v, v + 0)%R <$> values t).

(** Broadcasting of one dimension: equal sizes, or one of them is 1. *)
Definition broadcast_dim (a b : nat) : option nat :=
  if a =? b then Some a
  else if a =? 1 then Some b
  else if b =? 1 then Some a
  else None.

(** The position read in a dimension of size [d] for position [i] of the
    broadcast result. *)
Definition broadcast_pos (d i : nat) : nat := if d =? 1 then 0 else i.

(** [a + b]. Entry by entry when the shapes agree; otherwise the backend
    broadcasts dimensions of size 1, and raises when it cannot. *)
Definition add (a b : tensor) : result tensor :=
  if same_shape a b then
    Ok (Tensor (batch a) (channels a) (height a) (width a)
          (zip_with Rplus (values a) (values b)))
  else
    match broadcast_dim (batch a) (batch b),
          broadcast_dim (channels a) (channels b),
          broadcast_dim (height a) (height b),
          broadcast_dim (width a) (width b) with
    | Some n, Some c, Some h, Some w =>
        Ok (full n c h w (λ n' c' h' w',
              item a (broadcast_pos (batch a) n') (broadcast_pos (channels a) c')
                     (broadcast_pos (height a) h') (broadcast_pos (width a) w')
              + item b (broadcast_pos (batch b) n') (broadcast_pos (channels b) c')
                       (broadcast_pos (height b) h') (broadcast_pos (width b) w'))%R)
    | _, _, _, _ => Raise RuntimeError
    end.

(** Python's [sum(l)]: [((0 + l[0]) + l[1]) + ...]. For the empty list
    Python answers the int [0], which is no feature map; only a cell with
    an empty operation list gets there, and [__init__] builds none. The
    model does not follow that int through the cell: it stops there with
    [TypeError]. *)
Definition python_sum (l : list tensor) : result tensor :=
  match l with
  | [] => Raise TypeError
  | t :: l' => rfold add l' (radd_zero t)
  end.

(** ** Candidate operations

    The modules the constructor instantiates, with the hyperparameters it
    passes; everything else is the backend's default (stride 1 and no
    dilation or groups for a convolution, no ceil mode, padding counted in
    the average). *)

Inductive module : Type :=
| Identity
| Conv2d (in_channels out_channels kernel_size padding : nat) (weight : tensor)
    (* bias=False; [weight] has shape (out, in, kernel, kernel) *)
| MaxPool2d (kernel_size stride padding : nat)
| AvgPool2d (kernel_size stride padding : nat).

(** The entry of [x] at row [a], column [b] of the zero-padded plane. *)
Definition padded (x : tensor) (p n c a b : nat) : R :=
  if (p <=? a) && (a <? height x + p) && (p <=? b) && (b <? width x + p)
  then item x n c (a - p) (b - p)
  else 0%R.

(** The entries of [x] under a [k] by [k] window whose corner is at row [a],
    column [b] of the padded plane; padding positions are left out. *)
Definition window (x : tensor) (k p n c a b : nat) : list R :=
  kh ← seq 0 k; kw ← seq 0 k;
  if (p <=? a + kh) && (a + kh <? height x + p)
     && (p <=? b + kw) && (b + kw <? width x + p)
  then [item x n c (a + kh - p) (b + kw - p)]
  else [].

(** The largest entry of a window. A window is never empty: the padding is
    at most half the kernel, so it always covers an entry of the plane. *)
Definition Rmax_list (l : list R) : R :=
  match l with
  | [] => 0%R
  | v :: l' => fold_left Rmax l' v
  end.

(** The size checks shared by convolution and pooling, on one plane. *)
Definition fits (k p h w : nat) : bool :=
  (1 <=? k) && (k <=? h + 2 * p) && (k <=? w + 2 * p).

Definition conv2d (cin cout k p : nat) (weight x : tensor) : result tensor :=
  if negb (channels x =? cin) then Raise RuntimeError
  else if negb (fits k p (height x) (width x)) then Raise RuntimeError
  else
    Ok (full (batch x) cout
          (height x + 2 * p - k + 1) (width x + 2 * p - k + 1)
          (λ n co h w,
             Rsum (ci ← seq 0 cin; kh ← seq 0 k; kw ← seq 0 k;
                   [(item weight co ci kh kw * padded x p n ci (h + kh) (w + kw))%R]))).

Definition pool2d (reduce : list R → R) (k s p : nat) (x : tensor) : result tensor :=
  if negb ((1 <=? s) && (2 * p <=? k) && fits k p (height x) (width x))
  then Raise RuntimeError
  else
    Ok (full (batch x) (channels x)
          ((height x + 2 * p - k) / s + 1) ((width x + 2 * p - k) / s + 1)
          (λ n c h w, reduce (window x k p n c (h * s) (w * s)))).

(** [op(x)]. *)
Definition apply_module (op : module) (x : tensor) : result tensor :=
  match op with
  | Identity => Ok x
  | Conv2d cin cout k p weight => conv2d cin cout k p weight x
  | MaxPool2d k s p => pool2d Rmax_list k s p x
  | AvgPool2d k s p => pool2d (λ l, Rsum l / INR (k * k))%R k s p x
  end.

(** ** The cell *)

Record cell : Type := Cell {
  num_nodes : Z;
  num_ops : Z;
  in_channels : Z;
  arch_parameters : list (list (list R));   (* per node, a matrix of logits *)
  candidate_operations : list module
}.

(** A computation on [self]: an outcome and the cell afterwards. *)
Definition M (A : Type) : Type := cell → result A * cell.

Definition ret {A} (a : A) : M A := λ s, (Ok a, s).

Definition bind {A B} (m : M A) (k : A → M B) : M B :=
  λ s, match m s with
       | (Ok a, s') => k a s'
       | (Raise e, s') => (Raise e, s')
       end.

(** An attribute read, [self.f]. *)
Definition gets {A} (f : cell → A) : M A := λ s, (Ok (f s), s).

(** A backend call: it does not see [self]. *)
Definition lift {A} (r : result A) : M A := λ s, (r, s).

Declare Scope cell_scope.
Delimit Scope cell_scope with cell.
Notation "x <- m ;; k" := (bind m (λ x, k))
  (at level 100, m at next level, right associativity) : cell_scope.

(** [for x in l: b = body(x, b)]. *)
Fixpoint for_ {X B} (l : list X) (body : X → B → M B) (b : B) : M B :=
  match l with
  | [] => ret b
  | x :: l' => bind (body x b) (for_ l' body)
  end.

(** [enumerate(l)]. *)
Definition enumerate {A} (l : list A) : list (nat * A) :=
  imap (λ j a, (j, a)) l.

Local Open Scope cell_scope.

(** [self.arch_parameters[node][i]]. *)
Definition arch_row (node i : nat) : M (list R) :=
  params <- gets arch_parameters ;;
  matrix <- lift (getitem params node) ;;
  lift (getitem matrix i).

(** [range(min(node + 2, len(states)))]. *)
Definition eligible_sources (node : nat) (states : list tensor) : list nat :=
  seq 0 (Nat.min (node + 2) (length states)).

(** The body of the loop over [i] (lines 64-72): one mixture edge, from
    [states[i]] into [node]. *)
Definition mixture_edge (states : list tensor) (node i : nat)
    (node_inputs : list tensor) : M (list tensor) :=
  row <- arch_row node i ;;
  let op_weights := softmax row in
  ops <- gets candidate_operations ;;
  for_ (enumerate ops) (λ '(j, op) node_inputs,
      w <- lift (getitem op_weights j) ;;
      src <- lift (getitem states i) ;;
      y <- lift (apply_module op src) ;;
      ret (node_inputs ++ [mul_scalar w y]))
    node_inputs.

(** The loop over [i] (lines 59-72): the list [node_inputs] of one node. *)
Definition node_inputs_of (states : list tensor) (node : nat) : M (list tensor) :=
  for_ (eligible_sources node states) (mixture_edge states node) [].

(** The body of the loop over [node] (lines 59-77). *)
Definition node_step (node : nat) (states : list tensor) : M (list tensor) :=
  node_inputs <- node_inputs_of states node ;;
  out <- lift (python_sum node_inputs) ;;
  ret (states ++ [out]).

(** The state list after the nodes [0 .. n-1] (lines 55-77 for
    [range(n)]). *)
Definition cell_states (n : nat) (x : tensor) : M (list tensor) :=
  for_ (seq 0 n) node_step [x].

(** [PCDARTSSearchSpace.forward]. *)
Definition forward (x : tensor) : M tensor :=
  n <- gets num_nodes ;;
  states <- cell_states (Z.to_nat n) x ;;
  lift (last_item states).

Local Close Scope cell_scope.

(** ** Construction *)

(** The values drawn by the random initialisers: the logit of a node, row
    and column, and the entries of the two convolution kernels. *)
Record draws : Type := Draws {
  alpha : nat → nat → nat → R;
  kernel3 : nat → R;
  kernel1 : nat → R
}.

(** [torch.randn(rows, cols)]: a negative size is rejected. *)
Definition randn (draw : nat → nat → R) (rows cols : Z) : result (list (list R)) :=
  if ((rows <? 0) || (cols <? 0))%Z then Raise RuntimeError
  else Ok ((λ r, draw r <$> seq 0 (Z.to_nat cols)) <$> seq 0 (Z.to_nat rows)).

(** [nn.Conv2d(in_channels=cin, out_channels=cout, kernel_size=k,
    padding=p, bias=False)]: the kernel is allocated with shape
    (cout, cin, k, k), which a negative channel count makes fail. *)
Definition new_Conv2d (cin cout : Z) (k p : nat) (draw : nat → R) : result module :=
  if ((cin <? 0) || (cout <? 0))%Z then Raise RuntimeError
  else
    let ci := Z.to_nat cin in
    let co := Z.to_nat cout in
    Ok (Conv2d ci co k p (Tensor co ci k k (draw <$> seq 0 (co * ci * k * k)))).

(** The comprehension [[f(i) for i in l]]. *)
Fixpoint comprehension {X A} (f : X → result A) (l : list X) : result (list A) :=
  match l with
  | [] => Ok []
  | x :: l' => rbind (f x) (λ a, rbind (comprehension f l') (λ r, Ok (a :: r)))
  end.

(** [PCDARTSSearchSpace.__init__]. *)
Definition __init__ (d : draws) (num_nodes num_ops in_channels : Z) : result cell :=
  (params <- comprehension (λ i, randn (alpha d i) (Z.of_nat i + 2) num_ops)
               (seq 0 (Z.to_nat num_nodes)) ;;
   conv3 <- new_Conv2d in_channels in_channels 3 1 (kernel3 d) ;;
   conv1 <- new_Conv2d in_channels in_channels 1 0 (kernel1 d) ;;
   Ok (Cell num_nodes num_ops in_channels params
         [Identity; conv3; conv1; MaxPool2d 3 1 1; AvgPool2d 3 1 1]))%res.

(** * Notions used in the statements *)

(** The outcome of a computation. *)
Definition run {A} (m : M A) (s : cell) : result A := (m s).1.

(** The computations that leave the cell as they found it. *)
Class ReadOnly {A} (m : M A) : Prop :=
  read_only : ∀ s, (m s).2 = s.

(** The row of logits of edge [(node, i)], if the store has one. *)
Definition lookup_row (s : cell) (node i : nat) : option (list R) :=
  arch_parameters s !! node ≫= (.!! i).

(** One turn of the loop over the operations, for the source [states[i]]. *)
Definition weighted_op (states : list tensor) (i : nat) (op_weights : list R)
    (acc : list tensor) (jop : nat * module) : result (list tensor) :=
  (w <- getitem op_weights jop.1 ;;
   src <- getitem states i ;;
   y <- apply_module jop.2 src ;;
   Ok (acc ++ [mul_scalar w y]))%res.

(** Two cells that differ at most in the row [i0] of the matrix of node
    [k0]. *)
Definition differ_at_most_in_row (k0 i0 : nat) (s s' : cell) : Prop :=
  num_nodes s = num_nodes s' ∧
  candidate_operations s = candidate_operations s' ∧
  ∀ node i, (node, i) ≠ (k0, i0) → lookup_row s node i = lookup_row s' node i.

(** The shape of a parameter store for [n] nodes and [ops] logits per edge. *)
Definition store_shaped (n ops : nat) (P : list (list (list R))) : Prop :=
  length P = n ∧
  ∀ k m, P !! k = Some m → length m = k + 2 ∧ Forall (λ v, length v = ops) m.

(** The operation list of [__init__] for [c] channels, whatever the kernels. *)
Definition is_registry (c : nat) (ops : list module) : Prop :=
  ∃ w3 w1, ops = [Identity; Conv2d c c 3 1 w3; Conv2d c c 1 0 w1;
                  MaxPool2d 3 1 1; AvgPool2d 3 1 1].

(** A feature map the operations for [c] channels accept. *)
Definition accepted (c : nat) (sh : nat * nat * nat * nat) : Prop :=
  sh.1.1.2 = c ∧ 1 ≤ sh.1.2 ∧ 1 ≤ sh.2.

(** Entry-by-entry addition, the branch [add] takes on equal shapes. *)
Definition tadd (a b : tensor) : tensor :=
  Tensor (batch a) (channels a) (height a) (width a)
    (zip_with Rplus (values a) (values b)).

(** Tensors that all have the shape [sh]. *)
Definition uniform (sh : nat * nat * nat * nat) (l : list tensor) : Prop :=
  Forall (λ u, shape u = sh) l.

(** The multiples of the input held by the state list after [k] nodes. *)
Definition doubling (k : nat) : list R := 1%R :: (pow 2 <$> seq 0 k).

(** ** Cells and inputs of the examples *)

(** Every draw is zero. *)
Definition zero_draws : draws := Draws (λ _ _ _, 0%R) (λ _, 0%R) (λ _, 0%R).

(** The cell [__init__] builds for one node, five logits per edge and four
    channels, all draws being zero. *)
Definition one_node_cell : cell :=
  match __init__ zero_draws 1 5 4 with
  | Ok s => s
  | Raise _ => Cell 0 0 0 [] []
  end.

(** Two nodes over the identity alone, one logit per edge. *)
Definition two_identity_nodes : cell :=
  Cell 2 1 1 [[[0%R]; [0%R]]; [[0%R]; [0%R]; [0%R]]] [Identity].

(** Two one-node cells over the identity that differ in the second row of
    node 0. *)
Definition one_identity_node (row1 : list R) : cell :=
  Cell 1 1 1 [[[0%R]; row1]] [Identity].

(** A feature map of one pixel, one of four channels of one pixel, and the
    feature map of scenario 1. *)
Definition one_pixel : tensor := Tensor 1 1 1 1 [1%R].

Definition pixel_row : tensor := Tensor 1 4 1 1 [1; 2; 3; 4]%R.


(** ** Further notions about the cell *)

(** The cell whose logits on edge [(node, i)] are those of [s] plus the
    constant [shift node i]. *)
Definition shift_logits (shift : nat → nat → R) (s : cell) : cell :=
  Cell (num_nodes s) (num_ops s) (in_channels s)
    (imap (λ node matrix,
             imap (λ i row, (λ a, a + shift node i)%R <$> row) matrix)
          (arch_parameters s))
    (candidate_operations s).

(** The outcome of a backend call, mapped. *)
Definition rmap {A B} (f : A → B) (r : result A) : result B :=
  match r with
  | Ok a => Ok (f a)
  | Raise e => Raise e
  end.

(** Every tensor of a list scaled by [c]. *)
Definition scale_all (c : R) : list tensor → list tensor := fmap (mul_scalar c).


(** * The embedding network ([PCDARTSLightningModule])

    The stem, the cell and the classifier head, composed. Its methods
    raise more kinds of exception than the backend calls of the cell; the
    configuration is the dictionary read from the YAML file, kept to its
    sections and their integer entries, the only ones this class reads
    before training is configured. *)

Inductive error : Type :=
| Backend (e : exn)             (* an exception of a backend call *)
| ValueError
| KeyError (key : string)
| AttributeError (name : string).

Inductive outcome (A : Type) : Type :=
| Returns (a : A)
| Raises (e : error).
Arguments Returns {A} a.
Arguments Raises {A} e.

Definition of_result {A} (r : result A) : outcome A :=
  match r with
  | Ok a => Returns a
  | Raise e => Raises (Backend e)
  end.

Definition obind {A B} (o : outcome A) (k : A → outcome B) : outcome B :=
  match o with
  | Returns a => k a
  | Raises e => Raises e
  end.

Declare Scope outcome_scope.
Delimit Scope outcome_scope with out.
Notation "x <- o ;; k" := (obind o (λ x, k))
  (at level 100, o at next level, right associativity) : outcome_scope.

(** ** Layers of the stem *)

(** The parameters and buffers of a [BatchNorm2d]. *)
Record bn_buffers : Type := BnBuffers {
  bn_weight : list R;
  bn_bias : list R;
  running_mean : list R;
  running_var : list R;
  num_batches_tracked : Z
}.

(** The modules a stem is made of. *)
Inductive layer : Type :=
| Op (m : module)
| BatchNorm2d (num_features : nat) (buffers : bn_buffers)
| ReLU
| Sequential (body : list layer).

(** The backend's defaults for [BatchNorm2d]: [eps=1e-05], [momentum=0.1]. *)
Definition bn_eps : R := (1 / 100000)%R.
Definition bn_momentum : R := (1 / 10)%R.

(** The entries of channel [c] of a batch. *)
Definition channel_entries (x : tensor) (c : nat) : list R :=
  n ← seq 0 (batch x); h ← seq 0 (height x); w ← seq 0 (width x);
  [item x n c h w].

Definition channel_mean (x : tensor) (c : nat) : R :=
  (Rsum (channel_entries x c) / INR (batch x * height x * width x))%R.

(** The variance of channel [c], biased: divided by the number of entries. *)
Definition channel_var (x : tensor) (c : nat) : R :=
  (Rsum ((λ v, (v - channel_mean x c) * (v - channel_mean x c))%R
           <$> channel_entries x c)
   / INR (batch x * height x * width x))%R.

(** Each channel normalised with the given statistics, then scaled and
    shifted with the layer's weight and bias. *)
Definition normalise (x : tensor) (mean var : nat → R) (b : bn_buffers) : tensor :=
  full (batch x) (channels x) (height x) (width x)
    (λ n c h w,
       (item x n c h w - mean c) / sqrt (var c + bn_eps)
       * nth c (bn_weight b) 0 + nth c (bn_bias b) 0)%R.

(** [num_batches_tracked.add_(1)]. *)
Definition count_batch (b : bn_buffers) : bn_buffers :=
  BnBuffers (bn_weight b) (bn_bias b) (running_mean b) (running_var b)
    (num_batches_tracked b + 1).

(** The running statistics moved towards those of the batch; the running
    variance takes the unbiased variance of the batch. *)
Definition update_running (b : bn_buffers) (x : tensor) : bn_buffers :=
  let m := batch x * height x * width x in
  BnBuffers (bn_weight b) (bn_bias b)
    (imap (λ c rm, (1 - bn_momentum) * rm + bn_momentum * channel_mean x c)%R
          (running_mean b))
    (imap (λ c rv, (1 - bn_momentum) * rv
                   + bn_momentum * (channel_var x c * INR m / INR (m - 1)))%R
          (running_var b))
    (num_batches_tracked b).

(** [BatchNorm2d(n).forward(x)]. In training mode the batch counter is
    incremented first; then a batch with a single value per channel is
    refused, then one with another channel count; the batch is normalised
    with its own statistics and the running statistics are updated. In
    evaluation mode the running statistics are used and nothing is
    written. *)
Definition batch_norm (training : bool) (n : nat) (b : bn_buffers) (x : tensor)
    : outcome tensor * bn_buffers :=
  if training then
    let b1 := count_batch b in
    if batch x * height x * width x =? 1 then (Raises ValueError, b1)
    else if negb (channels x =? n) then (Raises (Backend RuntimeError), b1)
    else (Returns (normalise x (channel_mean x) (channel_var x) b1),
          update_running b1 x)
  else
    if negb (channels x =? n) then (Raises (Backend RuntimeError), b)
    else (Returns (normalise x (λ c, nth c (running_mean b) 0%R)
                     (λ c, nth c (running_var b) 0%R) b), b).

(** [ReLU]. *)
Definition relu (x : tensor) : tensor :=
  Tensor (batch x) (channels x) (height x) (width x) (Rmax 0 <$> values x).

(** [layer(x)], with the layer afterwards. A [Sequential] applies its
    modules in order and stops at the first that raises. *)
Fixpoint apply_layer (training : bool) (l : layer) (x : tensor) {struct l}
    : outcome tensor * layer :=
  match l with
  | Op m => (of_result (apply_module m x), l)
  | BatchNorm2d n b =>
      let '(r, b') := batch_norm training n b x in (r, BatchNorm2d n b')
  | ReLU => (Returns (relu x), l)
  | Sequential body =>
      let '(r, body') :=
        (fix go (ls : list layer) (x : tensor) : outcome tensor * list layer :=
           match ls with
           | [] => (Returns x, [])
           | l0 :: ls' =>
               match apply_layer training l0 x with
               | (Returns y, l0') =>
                   let '(r, ls'') := go ls' y in (r, l0' :: ls'')
               | (Raises e, l0') => (Raises e, l0' :: ls')
               end
           end) body x in
      (r, Sequential body')
  end.

(** The modules of a [Sequential], applied in order. *)
Fixpoint apply_layers (training : bool) (ls : list layer) (x : tensor)
    : outcome tensor * list layer :=
  match ls with
  | [] => (Returns x, [])
  | l0 :: ls' =>
      match apply_layer training l0 x with
      | (Returns y, l0') =>
          let '(r, ls'') := apply_layers training ls' y in (r, l0' :: ls'')
      | (Raises e, l0') => (Raises e, l0' :: ls')
      end
  end.

(** ** The classifier head *)

(** A two-dimensional tensor, row-major. *)
Record matrix : Type := Matrix {
  rows : nat;
  cols : nat;
  entries : list R
}.

(** [m[r][c]]. *)
Definition entry (m : matrix) (r c : nat) : R :=
  nth (r * cols m + c) (entries m) 0%R.

(** The parameters of a [Linear]: a weight of [out_features] rows and
    [in_features] columns, and a bias. *)
Record linear : Type := Linear {
  in_features : nat;
  out_features : nat;
  weight : matrix;
  bias : list R
}.

(** [AdaptiveAvgPool2d(output_size=1)]: the mean of each plane. An empty
    plane is refused. *)
Definition adaptive_avg_pool2d_1 (x : tensor) : result tensor :=
  if (height x =? 0) || (width x =? 0) then Raise RuntimeError
  else
    Ok (full (batch x) (channels x) 1 1
          (λ n c _ _,
             Rsum (h ← seq 0 (height x); w ← seq 0 (width x); [item x n c h w])
             / INR (height x * width x))%R).

(** [Flatten()]: one row per sample. *)
Definition flatten (x : tensor) : matrix :=
  Matrix (batch x) (channels x * height x * width x) (values x).

(** [Linear.forward]: every row times the transposed weight, plus the
    bias. *)
Definition linear_forward (l : linear) (m : matrix) : result matrix :=
  if negb (cols m =? in_features l) then Raise RuntimeError
  else
    Ok (Matrix (rows m) (out_features l)
          (r ← seq 0 (rows m); o ← seq 0 (out_features l);
           [(Rsum ((λ i, entry m r i * entry (weight l) o i)%R
                     <$> seq 0 (in_features l))
             + nth o (bias l) 0)%R])).

(** The classifier: pooling, flattening, the linear layer. *)
Definition classify (l : linear) (x : tensor) : result matrix :=
  (pooled <- adaptive_avg_pool2d_1 x ;;
   linear_forward l (flatten pooled))%res.

(** [nn.Linear(in_features, out_features)]: a negative size is refused. *)
Definition new_Linear (in_f : nat) (out_f : Z) (draw_weight draw_bias : nat → R)
    : result linear :=
  if (out_f <? 0)%Z then Raise RuntimeError
  else
    let o := Z.to_nat out_f in
    Ok (Linear in_f o (Matrix o in_f (draw_weight <$> seq 0 (o * in_f)))
          (draw_bias <$> seq 0 o)).

(** [nn.BatchNorm2d(n)] as constructed: weight 1, bias 0, running mean 0,
    running variance 1, no batch seen. *)
Definition new_BatchNorm2d (n : nat) : layer :=
  BatchNorm2d n
    (BnBuffers (replicate n 1%R) (replicate n 0%R)
       (replicate n 0%R) (replicate n 1%R) 0).

(** ** The module *)

(** [hasattr(module, "num_features")] and [hasattr(module, "out_channels")],
    with the attribute. *)
Definition num_features_of (l : layer) : option nat :=
  match l with
  | BatchNorm2d n _ => Some n
  | _ => None
  end.

Definition out_channels_of (l : layer) : option nat :=
  match l with
  | Op (Conv2d _ cout _ _ _) => Some cout
  | _ => None
  end.

(** The loop of [_get_output_channels] over the layers, in the order
    given: the first layer with one of the attributes decides. *)
Fixpoint first_channels (layers : list layer) : option nat :=
  match layers with
  | [] => None
  | l :: rest =>
      match num_features_of l with
      | Some n => Some n
      | None =>
          match out_channels_of l with
          | Some n => Some n
          | None => first_channels rest
          end
      end
  end.

(** [PCDARTSLightningModule._get_output_channels]. It returns an int, or
    Python's [None] when the loop over a [Sequential] ends without a
    [return]. *)
Definition _get_output_channels (module : layer) : outcome (option nat) :=
  match num_features_of module with
  | Some n => Returns (Some n)
  | None =>
      match out_channels_of module with
      | Some n => Returns (Some n)
      | None =>
          match module with
          | Sequential body => Returns (first_channels (reverse body))
          | _ => Raises ValueError
          end
      end
  end.

(** ** Loss and accuracy

    Labels are class indices, as the dataset gives them. *)

(** Row [r] of a matrix of logits. *)
Definition logit_row (m : matrix) (r : nat) : list R :=
  entry m r <$> seq 0 (cols m).

(** [F.cross_entropy(logits, y)]: the mean over the samples of minus the
    logarithm of the softmax weight of the sample's class. As many labels
    as rows are required, and every label must be a class. *)
Definition cross_entropy (logits : matrix) (y : list nat) : outcome R :=
  if negb (rows logits =? length y) then Raises ValueError
  else if negb (forallb (λ t, t <? cols logits) y) then Raises (Backend IndexError)
  else
    Returns (Rsum (imap (λ r t, - ln (nth t (softmax (logit_row logits r)) 0))%R y)
             / INR (length y))%R.

(** The position of the first largest entry among [l], which starts at
    position [i], and the entry [best] at position [best_i] before. *)
Fixpoint argmax_from (best_i : nat) (best : R) (i : nat) (l : list R) : nat :=
  match l with
  | [] => best_i
  | v :: l' =>
      if Rlt_dec best v then argmax_from i v (S i) l'
      else argmax_from best_i best (S i) l'
  end.

(** [argmax] of a row; an empty row has none. *)
Definition argmax (l : list R) : result nat :=
  match l with
  | [] => Raise IndexError
  | v :: l' => Ok (argmax_from 0 v 1 l')
  end.

(** [(logits.argmax(dim=1) == y).float().mean()], for as many labels as
    rows. *)
Definition accuracy (logits : matrix) (y : list nat) : result R :=
  (preds <- comprehension (λ r, argmax (logit_row logits r)) (seq 0 (rows logits)) ;;
   Ok (Rsum (zip_with (λ p t, if p =? t then 1 else 0)%R preds y)
       / INR (length preds))%R)%res.

(** The draws of the network's initialisers: the three kernels of the
    stem, the draws of the cell, the weight and the bias of the linear
    layer. *)
Record network_draws : Type := NetworkDraws {
  stem_kernel_1 : nat → R;
  stem_kernel_2 : nat → R;
  stem_kernel_3 : nat → R;
  cell_draws : draws;
  linear_weight : nat → R;
  linear_bias : nat → R
}.

(** [config[section][key]]. *)
Definition subscript (config : gmap string (gmap string Z)) (section key : string)
    : outcome Z :=
  match config !! section with
  | None => Raises (KeyError section)
  | Some entries =>
      match entries !! key with
      | None => Raises (KeyError key)
      | Some v => Returns v
      end
  end.

Module PCDARTSLightningModule.

Record t : Type := Make {
  config : gmap string (gmap string Z);
  training : bool;
  stem : layer;
  search_space : cell;
  classifier : linear
}.

(** [PCDARTSLightningModule.__init__]. A module is in training mode when
    constructed. *)
Definition __init__ (d : network_draws) (config : gmap string (gmap string Z))
    : outcome t :=
  (conv1 <- of_result (new_Conv2d 3 16 3 1 (stem_kernel_1 d)) ;;
   conv2 <- of_result (new_Conv2d 16 32 3 1 (stem_kernel_2 d)) ;;
   conv3 <- of_result (new_Conv2d 32 64 3 1 (stem_kernel_3 d)) ;;
   let stem :=
     Sequential [Op conv1; new_BatchNorm2d 16; ReLU;
                 Op conv2; new_BatchNorm2d 32; ReLU;
                 Op conv3; new_BatchNorm2d 64; ReLU] in
   stem_output_channels <- _get_output_channels stem ;;
   num_nodes <- subscript config "model" "num_nodes" ;;
   num_ops <- subscript config "model" "num_ops" ;;
   match stem_output_channels with
   | None =>
       (* [Conv2d(in_channels=None, ...)], after the parameter list *)
       _ <- of_result (comprehension
                         (λ i, randn (alpha (cell_draws d) i) (Z.of_nat i + 2) num_ops)
                         (seq 0 (Z.to_nat num_nodes))) ;;
       Raises (Backend TypeError)
   | Some channels =>
       search_space <- of_result (__init__ (cell_draws d) num_nodes num_ops
                                    (Z.of_nat channels)) ;;
       num_classes <- subscript config "model" "num_classes" ;;
       head <- of_result (new_Linear channels num_classes
                            (linear_weight d) (linear_bias d)) ;;
       Returns (Make config true stem search_space head)
   end)%out.

(** [PCDARTSLightningModule.forward]: the stem, the cell, the classifier,
    with the module afterwards. *)
Definition forward (x : tensor) (self : t) : outcome matrix * t :=
  match apply_layer (training self) (stem self) x with
  | (Raises e, stem') =>
      (Raises e, Make (config self) (training self) stem'
                   (search_space self) (classifier self))
  | (Returns y, stem') =>
      match forward y (search_space self) with
      | (Raise e, cell') =>
          (Raises (Backend e),
           Make (config self) (training self) stem' cell' (classifier self))
      | (Ok z, cell') =>
          (of_result (classify (classifier self) z),
           Make (config self) (training self) stem' cell' (classifier self))
      end
  end.


Definition train (self : t) : t :=
  Make (config self) true (stem self) (search_space self) (classifier self).

(** [training_step]: the loss of the batch, what is logged, and the module
    afterwards. *)
Definition training_step (batch : tensor * list nat) (self : t)
    : outcome R * list (string * R) * t :=
  let '(x, y) := batch in
  match forward x self with
  | (Raises e, self') => (Raises e, [], self')
  | (Returns logits, self') =>
      match cross_entropy logits y with
      | Raises e => (Raises e, [], self')
      | Returns loss => (Returns loss, [("train_loss", loss)], self')
      end
  end.

(** [validation_step]: it returns nothing; what is logged, and the module
    afterwards. *)
Definition validation_step (batch : tensor * list nat) (self : t)
    : outcome () * list (string * R) * t :=
  let '(x, y) := batch in
  match forward x self with
  | (Raises e, self') => (Raises e, [], self')
  | (Returns logits, self') =>
      match cross_entropy logits y with
      | Raises e => (Raises e, [], self')
      | Returns loss =>
          match accuracy logits y with
          | Raise e => (Raises (Backend e), [], self')
          | Ok acc => (Returns (), [("val_loss", loss); ("val_acc", acc)], self')
          end
      end
  end.

End PCDARTSLightningModule.

(** ** Notions about the network *)

(** The channel attribute [_get_output_channels] finds on a layer. *)
Definition channels_of (l : layer) : option nat :=
  match num_features_of l with
  | Some n => Some n
  | None => out_channels_of l
  end.

(** The stem [__init__] builds, whatever its kernels and the buffers of
    its normalisations. *)
Definition is_stem (st : layer) : Prop :=
  ∃ w1 w2 w3 b1 b2 b3,
    st = Sequential [Op (Conv2d 3 16 3 1 w1); BatchNorm2d 16 b1; ReLU;
                     Op (Conv2d 16 32 3 1 w2); BatchNorm2d 32 b2; ReLU;
                     Op (Conv2d 32 64 3 1 w3); BatchNorm2d 64 b3; ReLU].

(** The batch counters of the normalisations directly in a [Sequential],
    and its kernels. *)
Definition batch_counters (st : layer) : list Z :=
  match st with
  | Sequential body =>
      omap (λ l, match l with
                 | BatchNorm2d _ b => Some (num_batches_tracked b)
                 | _ => None
                 end) body
  | _ => []
  end.

Definition kernels (st : layer) : list tensor :=
  match st with
  | Sequential body =>
      omap (λ l, match l with
                 | Op (Conv2d _ _ _ _ w) => Some w
                 | _ => None
                 end) body
  | _ => []
  end.

(** A network as [__init__] builds it for [n] nodes, [ops] logits per edge
    and [classes] classes, whatever the values of its parameters and
    buffers. *)
Definition well_built (n ops classes : nat) (m : PCDARTSLightningModule.t) : Prop :=
  is_stem (PCDARTSLightningModule.stem m) ∧
  Z.to_nat (num_nodes (PCDARTSLightningModule.search_space m)) = n ∧
  is_registry 64 (candidate_operations (PCDARTSLightningModule.search_space m)) ∧
  store_shaped n ops (arch_parameters (PCDARTSLightningModule.search_space m)) ∧
  in_features (PCDARTSLightningModule.classifier m) = 64 ∧
  out_features (PCDARTSLightningModule.classifier m) = classes.

(** A configuration with a model section, and draws that are all zero. *)
Definition model_config (num_nodes num_ops num_classes : Z)
    : gmap string (gmap string Z) :=
  {[ "model" := {[ "num_nodes" := num_nodes; "num_ops" := num_ops;
                   "num_classes" := num_classes ]} ]}.

Definition zero_network_draws : network_draws :=
  NetworkDraws (λ _, 0%R) (λ _, 0%R) (λ _, 0%R) zero_draws (λ _, 0%R) (λ _, 0%R).

(** A batch of two images of three channels, four pixels by four, and a
    single image of one pixel. *)
Definition two_images : tensor := Tensor 2 3 4 4 (replicate 96 0%R).

Definition one_dot : tensor := Tensor 1 3 1 1 [0; 0; 0]%R.

(** The network built for one node, five logits per edge and ten classes,
    all draws being zero. *)
Definition example_network : PCDARTSLightningModule.t :=
  match PCDARTSLightningModule.__init__ zero_network_draws (model_config 1 5 10) with
  | Returns m => m
  | Raises _ =>
      PCDARTSLightningModule.Make ∅ true ReLU (Cell 0 0 0 [] [])
        (Linear 0 0 (Matrix 0 0 []) [])
  end.

(** * The data module ([CIFAR10DataModule])

    [setup] and the three loaders. What the data directory holds and the
    permutation [random_split] draws are arguments; the transform is
    applied when an image is fetched, which no method of the class does,
    and is left out. *)

(** An image and its label. *)
Definition sample : Type := tensor * nat.

(** [datasets.CIFAR10(root, train, transform)] without [download]: the
    images found under [root] for the split, [RuntimeError] when there are
    none. *)
Definition CIFAR10 (fs : string → bool → option (list sample)) (root : string)
    (train : bool) : outcome (list sample) :=
  match fs root train with
  | Some files => Returns files
  | None => Raises (Backend RuntimeError)
  end.

(** What a loader reads from: a whole split, or the images of a split at
    the given indices ([torch.utils.data.Subset]). *)
Inductive dataset : Type :=
| Images (files : list sample)
| Subset (files : list sample) (indices : list nat).

Definition len (d : dataset) : nat :=
  match d with
  | Images files => length files
  | Subset _ indices => length indices
  end.

(** [indices[offset - length : offset]] for the running sums [offset] of
    the lengths. *)
Fixpoint subsets (files : list sample) (indices : list nat) (offset : nat)
    (lengths : list nat) : list dataset :=
  match lengths with
  | [] => []
  | length :: rest =>
      Subset files (take length (drop offset indices))
        :: subsets files indices (offset + length) rest
  end.

(** [random_split(dataset, lengths)] for integer lengths. *)
Definition random_split (randperm : nat → list nat) (files : list sample)
    (lengths : list nat) : outcome (list dataset) :=
  if negb (sum_list lengths =? length files) then Raises ValueError
  else Returns (subsets files (randperm (sum_list lengths)) 0 lengths).

(** A constructed [DataLoader]. *)
Record loader : Type := Loader {
  loaded : dataset;
  loader_batch_size : Z;
  shuffle : bool;
  loader_num_workers : Z
}.

(** [DataLoader(dataset, batch_size, shuffle, num_workers,
    persistent_workers)] with its argument checks: the number of workers,
    then the random sampler's, then the batch sampler's. *)
Definition DataLoader (d : dataset) (batch_size : Z) (shuffle : bool)
    (num_workers : Z) (persistent_workers : bool) : outcome loader :=
  if (num_workers <? 0)%Z then Raises ValueError
  else if persistent_workers && (num_workers =? 0)%Z then Raises ValueError
  else if shuffle && (len d =? 0) then Raises ValueError
  else if (batch_size <=? 0)%Z then Raises ValueError
  else Returns (Loader d batch_size shuffle num_workers).

(** Reading an attribute that may not have been assigned. *)
Definition getattr {A} (name : string) (value : option A) : outcome A :=
  match value with
  | Some a => Returns a
  | None => Raises (AttributeError name)
  end.

Module CIFAR10DataModule.

(** The attributes the methods below read and write; the three datasets
    exist only once [setup] has assigned them. *)
Record t : Type := Make {
  data_dir : string;
  batch_size : Z;
  num_workers : Z;
  cifar_train : option dataset;
  cifar_val : option dataset;
  cifar_test : option dataset
}.

(** The body of [setup]'s first branch: the training images, split. *)
Definition fit_stage (fs : string → bool → option (list sample))
    (randperm : nat → list nat) (self : t) : outcome () * t :=
  match CIFAR10 fs (data_dir self) true with
  | Raises e => (Raises e, self)
  | Returns cifar_full =>
      match random_split randperm cifar_full [Z.to_nat 45000; Z.to_nat 5000] with
      | Raises e => (Raises e, self)
      | Returns [train; val] =>
          (Returns (),
           Make (data_dir self) (batch_size self) (num_workers self)
             (Some train) (Some val) (cifar_test self))
      | Returns _ => (Raises ValueError, self)   (* unpacking other than two *)
      end
  end.

(** The body of [setup]'s second branch: the test images. *)
Definition test_stage (fs : string → bool → option (list sample)) (self : t)
    : outcome () * t :=
  match CIFAR10 fs (data_dir self) false with
  | Raises e => (Raises e, self)
  | Returns files =>
      (Returns (),
       Make (data_dir self) (batch_size self) (num_workers self)
         (cifar_train self) (cifar_val self) (Some (Images files)))
  end.

(** [stage == name or stage is None]. *)
Definition is_stage (stage : option string) (name : string) : bool :=
  match stage with
  | None => true
  | Some s => bool_decide (s = name)
  end.

Definition setup (fs : string → bool → option (list sample))
    (randperm : nat → list nat) (stage : option string) (self : t)
    : outcome () * t :=
  let after_fit :=
    if is_stage stage "fit" then fit_stage fs randperm self
    else (Returns (), self) in
  match after_fit with
  | (Raises e, self) => (Raises e, self)
  | (Returns _, self) =>
      if is_stage stage "test" then test_stage fs self
      else (Returns (), self)
  end.

Definition train_dataloader (self : t) : outcome loader :=
  (d <- getattr "cifar_train" (cifar_train self) ;;
   DataLoader d (batch_size self) true (num_workers self) true)%out.

Definition val_dataloader (self : t) : outcome loader :=
  (d <- getattr "cifar_val" (cifar_val self) ;;
   DataLoader d (batch_size self) false (num_workers self) true)%out.

Definition test_dataloader (self : t) : outcome loader :=
  (d <- getattr "cifar_test" (cifar_test self) ;;
   DataLoader d (batch_size self) false (num_workers self) true)%out.

End CIFAR10DataModule.

(** ** Notions about the data module *)

(** The images a dataset gives, in its order; an index out of range gives
    none (fetching it raises). *)
Definition images_of (d : dataset) : list (option sample) :=
  match d with
  | Images files => Some <$> files
  | Subset files indices => (λ i, files !! i) <$> indices
  end.


(** A module on which [setup] has not run. *)
Definition fresh (dm : CIFAR10DataModule.t) : Prop :=
  CIFAR10DataModule.cifar_train dm = None ∧
  CIFAR10DataModule.cifar_val dm = None ∧
  CIFAR10DataModule.cifar_test dm = None.

Definition new_data_module (dir : string) (batch_size num_workers : Z)
    : CIFAR10DataModule.t :=
  CIFAR10DataModule.Make dir batch_size num_workers None None None.

(** A directory holding [n] training and [k] test images. *)
Definition directory (n k : nat) (root : string) (train : bool)
    : option (list sample) :=
  Some (replicate (if train then n else k) (one_dot, 0)).

Definition empty_directory (root : string) (train : bool)
    : option (list sample) := None.

(** * Reasoning about computations on the cell *)

Global Instance ret_read_only {A} (a : A) : ReadOnly (ret a).
Proof. by intros s. Qed.

Global Instance gets_read_only {A} (f : cell → A) : ReadOnly (gets f).
Proof. by intros s. Qed.

Global Instance lift_read_only {A} (r : result A) : ReadOnly (lift r).
Proof. by intros s. Qed.

Global Instance bind_read_only {A B} (m : M A) (k : A → M B) :
  ReadOnly m → (∀ a, ReadOnly (k a)) → ReadOnly (bind m k).
Proof.
  intros Hm Hk s. unfold bind. specialize (Hm s).
  destruct (m s) as [[a|e] s']; simpl in *; subst; [apply Hk | done].
Qed.

Global Instance for_read_only {X B} (l : list X) (body : X → B → M B) (b : B) :
  (∀ x b', ReadOnly (body x b')) → ReadOnly (for_ l body b).
Proof.
  intros Hbody. revert b. induction l as [|x l IH]; intros b; simpl.
  - apply _.
  - apply bind_read_only; [apply Hbody | apply IH].
Qed.

Lemma run_ret {A} (a : A) s : run (ret a) s = Ok a.
Proof. done. Qed.

Lemma run_gets {A} (f : cell → A) s : run (gets f) s = Ok (f s).
Proof. done. Qed.

Lemma run_lift {A} (r : result A) s : run (lift r) s = r.
Proof. done. Qed.

Lemma run_bind {A B} (m : M A) (k : A → M B) s :
  ReadOnly m → run (bind m k) s = rbind (run m s) (λ a, run (k a) s).
Proof.
  intros Hm. unfold run, bind. specialize (Hm s).
  destruct (m s) as [[a|e] s']; simpl in *; by subst.
Qed.

Lemma run_for {X B} (l : list X) (body : X → B → M B) (b : B) s :
  (∀ x b', ReadOnly (body x b')) →
  run (for_ l body b) s = rfold (λ b' x, run (body x b') s) l b.
Proof.
  intros Hbody. revert b. induction l as [|x l IH]; intros b; simpl; [done|].
  rewrite run_bind by apply Hbody.
  destruct (run (body x b) s); simpl; [apply IH | done].
Qed.

Lemma rbind_ok {A B} (r : result A) (k : A → result B) (b : B) :
  rbind r k = Ok b → ∃ a, r = Ok a ∧ k a = Ok b.
Proof. destruct r as [a|e]; simpl; [eauto | done]. Qed.

Lemma rfold_app {A X} (f : A → X → result A) (l1 l2 : list X) (a : A) :
  rfold f (l1 ++ l2) a = rbind (rfold f l1 a) (rfold f l2).
Proof.
  revert a. induction l1 as [|x l1 IH]; intros a; simpl; [done|].
  destruct (f a x); simpl; [apply IH | done].
Qed.

Lemma rfold_ext {A X} (f g : A → X → result A) (l : list X) (a : A) :
  (∀ a' x, x ∈ l → f a' x = g a' x) → rfold f l a = rfold g l a.
Proof.
  revert a. induction l as [|x l IH]; intros a Hfg; simpl; [done|].
  rewrite Hfg by left. destruct (g a x); simpl; [|done].
  apply IH. intros a' y Hy. apply Hfg. by right.
Qed.

(** ** The cell's computations read and never write *)

Global Instance arch_row_read_only node i : ReadOnly (arch_row node i).
Proof. unfold arch_row. apply _. Qed.

Global Instance mixture_edge_read_only states node i acc :
  ReadOnly (mixture_edge states node i acc).
Proof.
  unfold mixture_edge. apply bind_read_only; [apply _|]. intros row.
  apply bind_read_only; [apply _|]. intros ops.
  apply for_read_only. intros [j op] acc'. apply _.
Qed.

Global Instance node_inputs_of_read_only states node :
  ReadOnly (node_inputs_of states node).
Proof. unfold node_inputs_of. apply _. Qed.

Global Instance node_step_read_only node states : ReadOnly (node_step node states).
Proof. unfold node_step. apply _. Qed.

Global Instance cell_states_read_only n x : ReadOnly (cell_states n x).
Proof. unfold cell_states. apply _. Qed.

Global Instance forward_read_only x : ReadOnly (forward x).
Proof. unfold forward. apply _. Qed.

(** [ReadOnly] does restrict: a computation that replaces the cell is not
    one. *)
Remark writing_is_not_read_only :
  ¬ ReadOnly (λ _ : cell, (Ok (), Cell 0 0 0 [] [])).
Proof. intros H. by specialize (H (Cell 1 0 0 [] [])). Qed.

(** ** What each computation returns, the cell being fixed *)

Lemma run_arch_row node i s :
  run (arch_row node i) s =
  match lookup_row s node i with
  | Some row => Ok row
  | None => Raise IndexError
  end.
Proof.
  unfold arch_row, lookup_row.
  rewrite run_bind by apply _. rewrite run_gets. simpl.
  rewrite run_bind by apply _. rewrite run_lift. unfold getitem.
  destruct (arch_parameters s !! node) as [m|]; simpl; [|done].
  by rewrite run_lift.
Qed.

Lemma run_mixture_edge states node i acc s :
  run (mixture_edge states node i acc) s =
  rbind (run (arch_row node i) s) (λ row,
    rfold (weighted_op states i (softmax row))
      (enumerate (candidate_operations s)) acc).
Proof.
  unfold mixture_edge. rewrite run_bind by apply _.
  destruct (run (arch_row node i) s) as [row|e]; simpl; [|done].
  rewrite run_bind by apply _. rewrite run_gets. simpl.
  rewrite run_for by (intros [j op] acc'; apply _).
  apply rfold_ext. intros acc' [j op] _. unfold weighted_op. simpl.
  rewrite run_bind by apply _. rewrite run_lift.
  destruct (getitem (softmax row) j) as [w|e]; simpl; [|done].
  rewrite run_bind by apply _. rewrite run_lift.
  destruct (getitem states i) as [src|e]; simpl; [|done].
  rewrite run_bind by apply _. rewrite run_lift.
  by destruct (apply_module op src).
Qed.

Lemma run_node_inputs_of states node s :
  run (node_inputs_of states node) s =
  rfold (λ acc i, run (mixture_edge states node i acc) s)
    (eligible_sources node states) [].
Proof. unfold node_inputs_of. apply run_for. intros; apply _. Qed.

Lemma run_node_step node states s :
  run (node_step node states) s =
  rbind (run (node_inputs_of states node) s) (λ node_inputs,
    rbind (python_sum node_inputs) (λ out, Ok (states ++ [out]))).
Proof.
  unfold node_step. rewrite run_bind by apply _.
  destruct (run (node_inputs_of states node) s) as [l|e]; simpl; [|done].
  rewrite run_bind by apply _. rewrite run_lift.
  by destruct (python_sum l).
Qed.

Lemma run_cell_states_S n x s :
  run (cell_states (S n) x) s =
  rbind (run (cell_states n x) s) (λ states, run (node_step n states) s).
Proof.
  unfold cell_states. rewrite !run_for by (intros; apply _).
  rewrite seq_S, rfold_app. simpl.
  destruct (rfold _ (seq 0 n) [x]) as [states|e]; simpl; [|done].
  by destruct (run (node_step n states) s).
Qed.

Lemma run_forward x s :
  run (forward x) s =
  rbind (run (cell_states (Z.to_nat (num_nodes s)) x) s) last_item.
Proof.
  unfold forward. rewrite run_bind by apply _. rewrite run_gets. simpl.
  rewrite run_bind by apply _.
  destruct (run (cell_states _ x) s) as [states|e]; simpl; [|done].
  by rewrite run_lift.
Qed.

(** The state list grows by one entry per node. *)
Lemma node_step_length node states s states' :
  run (node_step node states) s = Ok states' →
  length states' = length states + 1.
Proof.
  rewrite run_node_step. intros H.
  apply rbind_ok in H as (l & _ & H). apply rbind_ok in H as (out & _ & H).
  injection H as <-. rewrite length_app. simpl. lia.
Qed.

Lemma cell_states_length n x s states :
  run (cell_states n x) s = Ok states → length states = n + 1.
Proof.
  revert states. induction n as [|n IH]; intros states.
  - unfold cell_states. simpl. rewrite run_ret. by intros [= <-].
  - rewrite run_cell_states_S. intros H.
    apply rbind_ok in H as (prev & Hprev & H).
    apply node_step_length in H. apply IH in Hprev. lia.
Qed.

(** Node [k] finds [k + 1] states, so its sources are [0 .. k]. *)
Lemma eligible_sources_seq k (states : list tensor) :
  length states = k + 1 → eligible_sources k states = seq 0 (k + 1).
Proof. intros H. unfold eligible_sources. rewrite H. f_equal. lia. Qed.

(** * The forward pass and the parameter store *)

(** C10. [forward] only reads the cell: whatever the input, and whether it
    returns or raises, the cell afterwards is the cell before; so is the
    parameter store, and so is every vector of logits in it. *)
Theorem forward_leaves_store (x : tensor) (s : cell) :
  (forward x s).2 = s ∧
  arch_parameters (forward x s).2 = arch_parameters s ∧
  ∀ node i, lookup_row (forward x s).2 node i = lookup_row s node i.
Proof.
  pose proof (forward_read_only x s) as H. by rewrite H.
Qed.

Section last_row.
Variables (k0 : nat) (s s' : cell).
Hypothesis Hdiff : differ_at_most_in_row k0 (k0 + 1) s s'.

Lemma mixture_edge_same_row states node i acc :
  (node, i) ≠ (k0, k0 + 1) →
  run (mixture_edge states node i acc) s = run (mixture_edge states node i acc) s'.
Proof using Hdiff.
  intros Hne. destruct Hdiff as (_ & Hops & Hrows).
  rewrite !run_mixture_edge, !run_arch_row, Hops.
  by rewrite (Hrows node i Hne).
Qed.

Lemma node_step_same_row node states :
  length states = node + 1 →
  run (node_step node states) s = run (node_step node states) s'.
Proof using Hdiff.
  intros Hlen. rewrite !run_node_step, !run_node_inputs_of.
  f_equal. apply rfold_ext. intros acc i Hi.
  apply mixture_edge_same_row.
  rewrite eligible_sources_seq in Hi by done.
  apply elem_of_seq in Hi. intros [= -> ->]. lia.
Qed.

Lemma cell_states_same_row n x :
  run (cell_states n x) s = run (cell_states n x) s'.
Proof using Hdiff.
  induction n as [|n IH]; [done|].
  rewrite !run_cell_states_S, <- IH.
  destruct (run (cell_states n x) s) as [states|e] eqn:E; simpl; [|done].
  apply node_step_same_row. by apply cell_states_length in E.
Qed.
End last_row.

(** C9. The outcome of [forward] is fixed by the input, the node count,
    the architecture parameters and the operations with their parameters:
    two cells that agree on these give the same outcome on the same input.
    And a second call on the same input, made on the cell the first call
    left behind, has the outcome of the first. *)
Theorem forward_is_deterministic (x : tensor) (s s' : cell) :
  num_nodes s = num_nodes s' →
  arch_parameters s = arch_parameters s' →
  candidate_operations s = candidate_operations s' →
  run (forward x) s = run (forward x) s' ∧
  forward x (forward x s).2 = forward x s.
Proof.
  intros Hn Hparams Hops. split.
  - rewrite !run_forward, Hn.
    rewrite (cell_states_same_row 0 s s'); [done|].
    split; [done|]. split; [done|].
    intros node i _. unfold lookup_row. by rewrite Hparams.
  - by rewrite (forward_read_only x s).
Qed.

Lemma forward_is_deterministic_witness :
  run (forward one_pixel) (one_identity_node [0%R]) =
  run (forward one_pixel) (Cell 1 5 4 [[[0%R]; [0%R]]] [Identity]).
Proof.
  apply (forward_is_deterministic one_pixel (one_identity_node [0%R])
           (Cell 1 5 4 [[[0%R]; [0%R]]] [Identity])); reflexivity.
Defined.

(** C8. Row [k+1] of the matrix of node [k] is never read: two cells that
    differ at most there give the same outcome on the same input. *)
Theorem last_row_is_ignored (k : nat) (s s' : cell) (x : tensor) :
  differ_at_most_in_row k (k + 1) s s' →
  run (forward x) s = run (forward x) s'.
Proof.
  intros Hdiff. rewrite !run_forward.
  rewrite (cell_states_same_row k s s' Hdiff).
  by destruct Hdiff as (-> & _).
Qed.

(** * What the constructor builds *)

Lemma comprehension_ok {X A} (f : X → result A) (l : list X) (r : list A) :
  comprehension f l = Ok r ↔ Forall2 (λ x a, f x = Ok a) l r.
Proof.
  revert r. induction l as [|x l IH]; intros r; simpl.
  - split; [intros [= <-]; constructor | by inversion 1].
  - split.
    + intros H. apply rbind_ok in H as (a & Ha & H).
      apply rbind_ok in H as (r' & Hr' & [= <-]).
      constructor; [done | by apply IH].
    + inversion 1 as [|? a ? r' Ha Hr']; subst.
      rewrite Ha. simpl. apply IH in Hr'. by rewrite Hr'.
Qed.

Lemma comprehension_total {X A} (f : X → result A) (l : list X) :
  (∀ x, x ∈ l → ∃ a, f x = Ok a) → ∃ r, comprehension f l = Ok r.
Proof.
  induction l as [|x l IH]; intros Hf; simpl; [by eexists|].
  destruct (Hf x) as [a ->]; [left|]. simpl.
  destruct IH as [r ->]; [intros y Hy; apply Hf; by right|].
  by eexists.
Qed.


Lemma randn_ok draw rows cols m :
  randn draw rows cols = Ok m →
  (0 ≤ rows)%Z ∧ (0 ≤ cols)%Z ∧
  length m = Z.to_nat rows ∧ Forall (λ v, length v = Z.to_nat cols) m.
Proof.
  unfold randn. destruct (_ || _) eqn:E; [done|]. intros [= <-].
  apply orb_false_iff in E as [E1 E2].
  apply Z.ltb_ge in E1. apply Z.ltb_ge in E2.
  rewrite length_fmap, length_seq. repeat split; try done.
  apply Forall_fmap, Forall_forall. intros r _. simpl.
  by rewrite length_fmap, length_seq.
Qed.

Lemma randn_total draw rows cols :
  (0 ≤ rows)%Z → (0 ≤ cols)%Z → ∃ m, randn draw rows cols = Ok m.
Proof.
  intros Hr Hc. unfold randn.
  apply Z.ltb_ge in Hr. apply Z.ltb_ge in Hc. rewrite Hr, Hc. by eexists.
Qed.


Lemma new_Conv2d_total c k p draw :
  (0 ≤ c)%Z → ∃ w, new_Conv2d c c k p draw = Ok (Conv2d (Z.to_nat c) (Z.to_nat c) k p w).
Proof.
  intros Hc. unfold new_Conv2d. apply Z.ltb_ge in Hc. rewrite Hc. simpl.
  by eexists.
Qed.

Lemma new_Conv2d_ok c k p draw op :
  new_Conv2d c c k p draw = Ok op →
  (0 ≤ c)%Z ∧ ∃ w, op = Conv2d (Z.to_nat c) (Z.to_nat c) k p w.
Proof.
  unfold new_Conv2d. destruct (_ || _) eqn:E; [done|]. intros [= <-].
  apply orb_false_iff in E as [E _]. apply Z.ltb_ge in E. eauto.
Qed.


(** What a successful construction has built. *)
Lemma init_ok d n ops c s :
  __init__ d n ops c = Ok s →
  num_nodes s = n ∧ num_ops s = ops ∧ in_channels s = c ∧ (0 ≤ c)%Z ∧
  is_registry (Z.to_nat c) (candidate_operations s) ∧
  Forall2 (λ i m, randn (alpha d i) (Z.of_nat i + 2) ops = Ok m)
    (seq 0 (Z.to_nat n)) (arch_parameters s).
Proof.
  unfold __init__. intros H.
  apply rbind_ok in H as (P & HP & H).
  apply rbind_ok in H as (c3 & H3 & H).
  apply rbind_ok in H as (c1 & H1 & [= <-]). simpl.
  apply new_Conv2d_ok in H3 as (Hc & w3 & ->).
  apply new_Conv2d_ok in H1 as (_ & w1 & ->).
  apply comprehension_ok in HP.
  repeat split; try done. by exists w3, w1.
Qed.

(** Construction checks nothing itself: it succeeds unless the backend
    refuses a negative size. *)
Lemma init_total d n ops c :
  (0 ≤ c)%Z → (n ≤ 0 ∨ 0 ≤ ops)%Z → ∃ s, __init__ d n ops c = Ok s.
Proof.
  intros Hc Hn. unfold __init__.
  destruct (comprehension_total
              (λ i, randn (alpha d i) (Z.of_nat i + 2) ops)
              (seq 0 (Z.to_nat n))) as [P ->].
  { intros i Hi. apply elem_of_seq in Hi.
    apply randn_total; lia. }
  simpl.
  destruct (new_Conv2d_total c 3 1 (kernel3 d) Hc) as [w3 ->]. simpl.
  destruct (new_Conv2d_total c 1 0 (kernel1 d) Hc) as [w1 ->]. simpl.
  by eexists.
Qed.

Lemma init_store_shaped d n ops c s :
  __init__ d n ops c = Ok s →
  store_shaped (Z.to_nat n) (Z.to_nat ops) (arch_parameters s).
Proof.
  intros H. apply init_ok in H as (_ & _ & _ & _ & _ & HP).
  split.
  - apply Forall2_length in HP. by rewrite length_seq in HP.
  - intros k m Hk.
    destruct (Forall2_lookup_r _ _ _ _ _ HP Hk) as (i & Hi & Hm).
    apply lookup_seq in Hi as [-> _]. simpl in Hm.
    apply randn_ok in Hm as (_ & _ & Hlen & Hrows).
    split; [lia | done].
Qed.



(** C7. After a successful construction with [n] nodes, node [k] holds
    [k + 2] vectors of [num_ops] logits each, for every [k < n]; for [n = 3]
    the counts are 2, 3, 4; and a forward call leaves the store as it is. *)
Theorem init_parameter_counts d n ops c s :
  __init__ d n ops c = Ok s →
  (∀ k, k < Z.to_nat n →
     ∃ m, arch_parameters s !! k = Some m ∧ length m = k + 2 ∧
          Forall (λ v, Z.of_nat (length v) = ops) m) ∧
  (n = 3%Z → length <$> arch_parameters s = [2; 3; 4]) ∧
  (∀ x, arch_parameters (forward x s).2 = arch_parameters s).
Proof.
  intros Hinit.
  pose proof (init_ok _ _ _ _ _ Hinit) as (_ & _ & _ & _ & _ & HP).
  assert (Hrows : ∀ k, k < Z.to_nat n →
     ∃ m, arch_parameters s !! k = Some m ∧ length m = k + 2 ∧
          Forall (λ v, Z.of_nat (length v) = ops) m).
  { intros k Hk.
    destruct (Forall2_lookup_l _ _ _ k k HP) as (m & Hm & Hr).
    { apply lookup_seq. split; [done | lia]. }
    exists m. simpl in Hr.
    apply randn_ok in Hr as (_ & Hops & Hlen & Hcols).
    repeat split; [done | lia |].
    eapply Forall_impl; [exact Hcols|]. simpl. intros v Hv. lia. }
  repeat split; [done | | intros x; by rewrite (forward_read_only x s)].
  intros ->.
  destruct (Hrows 0) as (m0 & H0 & L0 & _); [simpl; lia|].
  destruct (Hrows 1) as (m1 & H1 & L1 & _); [simpl; lia|].
  destruct (Hrows 2) as (m2 & H2 & L2 & _); [simpl; lia|].
  apply Forall2_length in HP. rewrite length_seq in HP.
  destruct (arch_parameters s) as [|a0 [|a1 [|a2 [|a3 P]]]]; simpl in HP; try lia.
  simpl in *. congruence.
Qed.

Lemma init_parameter_counts_witness :
  ∃ s, __init__ zero_draws 3 5 4 = Ok s ∧
       length <$> arch_parameters s = [2; 3; 4].
Proof.
  eexists. split; [reflexivity|].
  apply (init_parameter_counts zero_draws 3 5 4 _ eq_refl). reflexivity.
Defined.

(** C2, as the code has it. With [num_nodes = 0] construction succeeds (for
    a positive channel count and any [num_ops]); the store it builds is
    empty and [forward] returns its input unchanged. *)
Theorem zero_nodes_returns_input d ops c :
  (0 < c)%Z →
  ∃ s, __init__ d 0 ops c = Ok s ∧ arch_parameters s = [] ∧
       ∀ x, run (forward x) s = Ok x.
Proof.
  intros Hc.
  destruct (init_total d 0 ops c) as [s Hs]; [lia | lia |].
  exists s. split; [done|].
  pose proof (init_ok _ _ _ _ _ Hs) as (Hn & _ & _ & _ & _ & HP).
  split.
  - simpl in HP. by inversion HP.
  - intros x. rewrite run_forward, Hn. done.
Qed.

Lemma zero_nodes_returns_input_witness :
  ∃ s, __init__ zero_draws 0 5 4 = Ok s ∧ arch_parameters s = [] ∧
       ∀ x, run (forward x) s = Ok x.
Proof. apply (zero_nodes_returns_input zero_draws 5 4). lia. Defined.

(** C2 fails: a cell with no node is built, and its forward pass hands the
    input back. *)
Lemma zero_nodes_is_no_error :
  ∃ s, __init__ zero_draws 0 5 4 = Ok s ∧ run (forward pixel_row) s = Ok pixel_row.
Proof. eexists. split; reflexivity. Qed.




(** * The mixture edge *)

Local Open Scope R_scope.




Lemma softmax_length (v : list R) : length (softmax v) = length v.
Proof. unfold softmax. apply length_fmap. Qed.



Local Close Scope R_scope.

(** An edge appends its terms to the inputs collected so far. *)
Lemma weighted_ops_append states i ws (l : list (nat * module)) acc1 acc2 :
  rfold (weighted_op states i ws) l (acc1 ++ acc2) =
  rbind (rfold (weighted_op states i ws) l acc2) (λ terms, Ok (acc1 ++ terms)).
Proof.
  revert acc2. induction l as [|[j op] l IH]; intros acc2; simpl; [done|].
  unfold weighted_op at 1 3. simpl.
  destruct (getitem ws j) as [w|e]; simpl; [|done].
  destruct (getitem states i) as [src|e]; simpl; [|done].
  destruct (apply_module op src) as [y|e]; simpl; [|done].
  rewrite <- (assoc_L (++)). apply IH.
Qed.

Lemma mixture_edge_appends states node i acc s :
  run (mixture_edge states node i acc) s =
  rbind (run (mixture_edge states node i []) s) (λ terms, Ok (acc ++ terms)).
Proof.
  rewrite !run_mixture_edge.
  destruct (run (arch_row node i) s) as [row|e]; simpl; [|done].
  rewrite <- (app_nil_r acc) at 1. apply weighted_ops_append.
Qed.

(** The terms of an edge, operation by operation: the weight of position
    [j] times the output of operation [j] on the source. *)
Lemma weighted_ops_terms states i src (ops : list module) :
  states !! i = Some src →
  ∀ (pre ws : list R) (k : nat) acc,
    length pre = k → length ops ≤ length ws →
    rfold (weighted_op states i (pre ++ ws)) (imap (λ j op, (k + j, op)) ops) acc =
    rbind (comprehension (λ op, apply_module op src) ops)
      (λ ys, Ok (acc ++ zip_with mul_scalar ws ys)).
Proof.
  intros Hsrc. induction ops as [|op ops IH]; intros pre ws k acc Hpre Hlen.
  - simpl. by rewrite zip_with_nil_r, app_nil_r.
  - destruct ws as [|w ws]; [simpl in Hlen; lia|].
    simpl. unfold weighted_op at 1. simpl.
    unfold getitem at 1.
    rewrite lookup_app_r by lia.
    replace (k + 0 - length pre) with 0 by lia. simpl.
    unfold getitem at 1. rewrite Hsrc. simpl.
    destruct (apply_module op src) as [y|e]; simpl; [|done].
    rewrite (imap_ext _ (λ j op', (S k + j, op'))) by (intros; simpl; f_equal; lia).
    rewrite (cons_middle w pre ws), (assoc_L (++)).
    rewrite IH by (rewrite ?length_app; simpl in *; lia).
    destruct (comprehension _ ops) as [ys|e]; simpl; [|done].
    by rewrite <- (assoc_L (++)).
Qed.

Lemma mixture_edge_terms s states node i acc row src :
  lookup_row s node i = Some row →
  states !! i = Some src →
  length (candidate_operations s) ≤ length row →
  run (mixture_edge states node i acc) s =
  rbind (comprehension (λ op, apply_module op src) (candidate_operations s))
    (λ ys, Ok (acc ++ zip_with mul_scalar (softmax row) ys)).
Proof.
  intros Hrow Hsrc Hlen.
  rewrite run_mixture_edge, run_arch_row, Hrow. simpl.
  apply (weighted_ops_terms states i src _ Hsrc [] (softmax row) 0 acc); [done|].
  by rewrite softmax_length.
Qed.


(** * The nodes *)

(** The inputs of a node are the terms of its edges, edge after edge. *)
Lemma edges_concat {X} (g : X → result (list tensor)) (l : list X) acc :
  rfold (λ acc' i, rbind (g i) (λ terms, Ok (acc' ++ terms))) l acc =
  rbind (comprehension g l) (λ edges, Ok (acc ++ concat edges)).
Proof.
  revert acc. induction l as [|i l IH]; intros acc; simpl.
  - by rewrite app_nil_r.
  - destruct (g i) as [terms|e]; simpl; [|done].
    rewrite IH. destruct (comprehension g l) as [edges|e]; simpl; [|done].
    by rewrite <- (assoc_L (++)).
Qed.

Lemma node_inputs_concat states node s :
  run (node_inputs_of states node) s =
  rbind (comprehension (λ i, run (mixture_edge states node i []) s)
           (eligible_sources node states))
    (λ edges, Ok (concat edges)).
Proof.
  rewrite run_node_inputs_of.
  rewrite (rfold_ext _ (λ acc i, rbind (run (mixture_edge states node i []) s)
                                   (λ terms, Ok (acc ++ terms)))).
  - apply (edges_concat _ _ []).
  - intros acc i _. apply mixture_edge_appends.
Qed.

(** Each edge that is evaluated yields one term per operation. *)
Lemma weighted_ops_count states i ws (l : list (nat * module)) acc r :
  rfold (weighted_op states i ws) l acc = Ok r →
  length r = length acc + length l.
Proof.
  revert acc. induction l as [|jop l IH]; intros acc; simpl.
  - intros [= <-]. lia.
  - intros H. apply rbind_ok in H as (acc' & Hacc' & H).
    apply IH in H. unfold weighted_op in Hacc'.
    apply rbind_ok in Hacc' as (w & _ & Hacc').
    apply rbind_ok in Hacc' as (src & _ & Hacc').
    apply rbind_ok in Hacc' as (y & _ & [= <-]).
    rewrite length_app in H. simpl in H. lia.
Qed.

Lemma mixture_edge_count states node i s terms :
  run (mixture_edge states node i []) s = Ok terms →
  length terms = length (candidate_operations s).
Proof.
  rewrite run_mixture_edge. intros H. apply rbind_ok in H as (row & _ & H).
  apply weighted_ops_count in H. unfold enumerate in H.
  by rewrite length_imap in H.
Qed.

Lemma concat_length_uniform {A} (ls : list (list A)) (n : nat) :
  Forall (λ l, length l = n) ls → length (concat ls) = length ls * n.
Proof.
  induction 1 as [|l ls Hl _ IH]; simpl; [done|].
  rewrite length_app, IH, Hl. lia.
Qed.

(** ** Sums of tensors of one shape *)

Lemma same_shape_iff a b : same_shape a b = true ↔ shape a = shape b.
Proof.
  unfold same_shape, shape. rewrite !andb_true_iff, !Nat.eqb_eq.
  split; [intros [[[-> ->] ->] ->]; done | intros [= -> -> -> ->]; done].
Qed.

Lemma add_same_shape a b : shape a = shape b → add a b = Ok (tadd a b).
Proof. intros H. apply same_shape_iff in H. unfold add. by rewrite H. Qed.

Lemma tadd_shape a b : shape (tadd a b) = shape a.
Proof. done. Qed.

Lemma mul_scalar_shape w t : shape (mul_scalar w t) = shape t.
Proof. done. Qed.

Lemma zip_with_Rplus_assoc (u v w : list R) :
  zip_with Rplus (zip_with Rplus u v) w = zip_with Rplus u (zip_with Rplus v w).
Proof.
  revert v w. induction u as [|a u IH]; intros [|b v] [|c w]; simpl; try done.
  by rewrite IH, Rplus_assoc.
Qed.

Lemma tadd_assoc a b c : tadd (tadd a b) c = tadd a (tadd b c).
Proof. unfold tadd. simpl. by rewrite zip_with_Rplus_assoc. Qed.

Lemma radd_zero_id t : radd_zero t = t.
Proof.
  destruct t as [n c h w v]. unfold radd_zero. simpl. f_equal.
  induction v as [|a v IH]; csimpl; [done|]. by rewrite IH, Rplus_0_r.
Qed.

Lemma fold_tadd_shape l z : shape (fold_left tadd l z) = shape z.
Proof. revert z. induction l as [|t l IH]; intros z; simpl; [done|]. by rewrite IH. Qed.

Lemma rfold_add_uniform sh l z :
  shape z = sh → Forall (λ u, shape u = sh) l →
  rfold add l z = Ok (fold_left tadd l z).
Proof.
  intros Hz Hl. revert z Hz. induction Hl as [|t l Ht _ IH]; intros z Hz; simpl; [done|].
  rewrite add_same_shape by congruence. simpl. apply IH. by rewrite tadd_shape.
Qed.

(** On tensors of one shape Python's [sum] is the entry-by-entry sum, and
    it has that shape. *)
Lemma python_sum_uniform sh t l :
  Forall (λ u, shape u = sh) (t :: l) →
  python_sum (t :: l) = Ok (fold_left tadd l t) ∧ shape (fold_left tadd l t) = sh.
Proof.
  intros H. apply Forall_cons in H as [Ht Hl]. simpl. rewrite radd_zero_id.
  split; [by apply (rfold_add_uniform sh) | by rewrite fold_tadd_shape].
Qed.

Lemma fold_tadd_shift l a b :
  fold_left tadd l (tadd a b) = tadd a (fold_left tadd l b).
Proof.
  revert b. induction l as [|t l IH]; intros b; simpl; [done|].
  by rewrite tadd_assoc, IH.
Qed.

(** Summing the terms of all edges in one go gives the sum of the sums of
    the edges. *)
Lemma fold_tadd_edges sh (edges : list (list tensor)) (outs : list tensor) :
  Forall (Forall (λ u, shape u = sh)) edges →
  Forall2 (λ terms e, python_sum terms = Ok e) edges outs →
  Forall (λ e, shape e = sh) outs ∧
  ∀ z, fold_left tadd (concat edges) z = fold_left tadd outs z.
Proof.
  intros Hsh Hsum. induction Hsum as [|terms e edges outs He _ IH].
  - split; [constructor | done].
  - apply Forall_cons in Hsh as [Hterms Hedges].
    destruct (IH Hedges) as [Houts Hfold].
    destruct terms as [|t terms]; [done|].
    destruct (python_sum_uniform sh t terms Hterms) as [Hok Hshape].
    rewrite Hok in He. injection He as <-.
    split; [by constructor|].
    intros z. simpl. rewrite fold_left_app, Hfold.
    by rewrite <- fold_tadd_shift.
Qed.

Lemma python_sum_edges sh (edges : list (list tensor)) (outs : list tensor) :
  Forall (Forall (λ u, shape u = sh)) edges →
  Forall2 (λ terms e, python_sum terms = Ok e) edges outs →
  python_sum (concat edges) = python_sum outs.
Proof.
  intros Hsh Hsum. destruct Hsum as [|terms e edges outs He Hrest]; [done|].
  apply Forall_cons in Hsh as [Hterms Hedges].
  destruct (fold_tadd_edges sh edges outs Hedges Hrest) as [Houts Hfold].
  destruct terms as [|t terms]; [done|].
  destruct (python_sum_uniform sh t terms Hterms) as [Hok Hshape].
  rewrite Hok in He. injection He as <-.
  destruct (python_sum_uniform sh (fold_left tadd terms t) outs) as [-> _];
    [by constructor|].
  assert (Forall (λ u, shape u = sh) ((t :: terms) ++ concat edges)) as Hall.
  { apply Forall_app. split; [done|]. by apply Forall_concat. }
  change (concat ((t :: terms) :: edges)) with (t :: (terms ++ concat edges)).
  destruct (python_sum_uniform sh t (terms ++ concat edges) Hall) as [-> _].
  by rewrite fold_left_app, Hfold.
Qed.

(** Non-empty edges of one shape all have a sum. *)
Lemma edge_sums_exist sh (edges : list (list tensor)) :
  Forall (Forall (λ u, shape u = sh)) edges →
  Forall (λ terms, terms ≠ []) edges →
  ∃ outs, Forall2 (λ terms e, python_sum terms = Ok e) edges outs.
Proof.
  induction edges as [|terms edges IH]; intros Hsh Hne; [by exists []|].
  apply Forall_cons in Hsh as [Hterms Hedges].
  apply Forall_cons in Hne as [Hnil Hne].
  destruct (IH Hedges Hne) as [outs Houts].
  destruct terms as [|t terms]; [done|].
  destruct (python_sum_uniform sh t terms Hterms) as [Hok _].
  eexists (_ :: outs). by constructor.
Qed.




(** * Shapes *)

Lemma conv2d_shape c p w x y :
  conv2d c c (2 * p + 1) p w x = Ok y → shape y = shape x.
Proof.
  unfold conv2d. destruct (channels x =? c) eqn:Ec; simpl; [|done].
  destruct (fits _ _ _ _) eqn:Ef; simpl; [|done]. intros [= <-].
  apply Nat.eqb_eq in Ec. unfold fits in Ef.
  apply andb_true_iff in Ef as [Ef Ew]. apply andb_true_iff in Ef as [_ Eh].
  apply Nat.leb_le in Eh. apply Nat.leb_le in Ew.
  unfold shape, full. cbn [batch channels height width].
  repeat f_equal; lia.
Qed.

Lemma pool2d_shape reduce p x y :
  pool2d reduce (2 * p + 1) 1 p x = Ok y → shape y = shape x.
Proof.
  unfold pool2d. destruct (_ && _) eqn:E; cbn [negb]; [|done]. intros [= <-].
  apply andb_true_iff in E as [_ Ef]. unfold fits in Ef.
  apply andb_true_iff in Ef as [Ef Ew]. apply andb_true_iff in Ef as [_ Eh].
  apply Nat.leb_le in Eh. apply Nat.leb_le in Ew.
  unfold shape, full. cbn [batch channels height width].
  assert (∀ a, (Nat.divmod a 0 0 0).1 = a) as Hdiv
    by (intros a; apply (Nat.div_1_r a)).
  rewrite ?Hdiv, ?Nat.div_1_r. repeat f_equal; lia.
Qed.

Lemma conv2d_total c p w x :
  channels x = c → 1 ≤ height x → 1 ≤ width x →
  ∃ y, conv2d c c (2 * p + 1) p w x = Ok y.
Proof.
  intros Hc Hh Hw. unfold conv2d.
  apply Nat.eqb_eq in Hc. rewrite Hc. cbn [negb].
  assert (fits (2 * p + 1) p (height x) (width x) = true) as ->.
  { unfold fits. rewrite !andb_true_iff, !Nat.leb_le. lia. }
  by eexists.
Qed.

Lemma pool2d_total reduce p x :
  1 ≤ height x → 1 ≤ width x →
  ∃ y, pool2d reduce (2 * p + 1) 1 p x = Ok y.
Proof.
  intros Hh Hw. unfold pool2d.
  assert ((1 <=? 1) && (2 * p <=? 2 * p + 1)
          && fits (2 * p + 1) p (height x) (width x) = true) as ->.
  { unfold fits. rewrite !andb_true_iff, !Nat.leb_le. lia. }
  by eexists.
Qed.

(** Every operation of the constructor's list keeps the shape of its input. *)
Lemma registry_keeps_shape c ops op x y :
  is_registry c ops → op ∈ ops → apply_module op x = Ok y → shape y = shape x.
Proof.
  intros (w3 & w1 & ->) Hop.
  repeat (apply elem_of_cons in Hop as [-> | Hop]); simpl.
  - by intros [= <-].
  - apply (conv2d_shape c 1).
  - apply (conv2d_shape c 0).
  - apply (pool2d_shape _ 1).
  - apply (pool2d_shape _ 1).
  - inversion Hop.
Qed.

Lemma registry_total c ops op x :
  is_registry c ops → op ∈ ops → accepted c (shape x) →
  ∃ y, apply_module op x = Ok y.
Proof.
  intros (w3 & w1 & ->) Hop (Hc & Hh & Hw). simpl in Hc, Hh, Hw.
  repeat (apply elem_of_cons in Hop as [-> | Hop]); simpl.
  - by eexists.
  - by apply (conv2d_total c 1).
  - by apply (conv2d_total c 0).
  - by apply (pool2d_total _ 1).
  - by apply (pool2d_total _ 1).
  - inversion Hop.
Qed.

Section shapes.
Variables (s : cell) (c : nat) (sh : nat * nat * nat * nat).
Hypothesis Hreg : is_registry c (candidate_operations s).

Lemma weighted_ops_shape states i ws (l : list (nat * module)) acc r :
  uniform sh states →
  (∀ jop, jop ∈ l → jop.2 ∈ candidate_operations s) →
  rfold (weighted_op states i ws) l acc = Ok r →
  uniform sh acc → uniform sh r.
Proof using Hreg.
  intros Hstates. revert acc. induction l as [|[j op] l IH]; intros acc Hl; simpl.
  - by intros [= <-].
  - intros H Hacc. apply rbind_ok in H as (acc' & Hacc' & H).
    apply (IH acc'); [intros jop Hjop; apply Hl; by right | done |].
    unfold weighted_op in Hacc'. simpl in Hacc'.
    apply rbind_ok in Hacc' as (w & _ & Hacc').
    apply rbind_ok in Hacc' as (src & Hsrc & Hacc').
    apply rbind_ok in Hacc' as (y & Hy & [= <-]).
    apply Forall_app. split; [done|]. apply Forall_singleton.
    rewrite mul_scalar_shape.
    rewrite (registry_keeps_shape c _ op src y Hreg); [| apply (Hl (j, op)); left | done].
    unfold getitem in Hsrc. destruct (states !! i) as [src'|] eqn:E; [|done].
    injection Hsrc as ->.
    by apply (Forall_lookup_1 _ _ _ _ Hstates E).
Qed.

Lemma enumerate_elem {A} (l : list A) (ja : nat * A) :
  ja ∈ enumerate l → ja.2 ∈ l.
Proof.
  unfold enumerate. intros H. apply list_elem_of_lookup in H as [n Hn].
  rewrite list_lookup_imap in Hn.
  destruct (l !! n) as [a|] eqn:E; simpl in Hn; [|done].
  injection Hn as <-. simpl. by apply list_elem_of_lookup_2 in E.
Qed.

Lemma mixture_edge_shape states node i terms :
  uniform sh states →
  run (mixture_edge states node i []) s = Ok terms → uniform sh terms.
Proof using Hreg.
  intros Hstates H. rewrite run_mixture_edge in H.
  apply rbind_ok in H as (row & _ & H).
  eapply weighted_ops_shape in H; [done | done | | constructor].
  intros jop. apply enumerate_elem.
Qed.

Lemma node_step_shape node states states' :
  uniform sh states →
  run (node_step node states) s = Ok states' → uniform sh states'.
Proof using Hreg.
  intros Hstates H. rewrite run_node_step, node_inputs_concat in H.
  apply rbind_ok in H as (inputs & Hinputs & H).
  apply rbind_ok in Hinputs as (edges & Hedges & [= <-]).
  apply rbind_ok in H as (out & Hout & [= <-]).
  apply Forall_app. split; [done|]. apply Forall_singleton.
  apply comprehension_ok in Hedges.
  assert (uniform sh (concat edges)) as Hall.
  { apply Forall_concat, Forall_forall. intros terms Hin.
    apply list_elem_of_lookup in Hin as [j Hj].
    destruct (Forall2_lookup_r _ _ _ _ _ Hedges Hj) as (i & _ & Hi).
    by apply (mixture_edge_shape states node i). }
  destruct (concat edges) as [|t l]; [done|].
  destruct (python_sum_uniform sh t l Hall) as [Hok Hsh].
  rewrite Hok in Hout. by injection Hout as <-.
Qed.

Lemma cell_states_shape n x states :
  shape x = sh → run (cell_states n x) s = Ok states → uniform sh states.
Proof using Hreg.
  intros Hx. revert states. induction n as [|n IH]; intros states.
  - unfold cell_states. simpl. rewrite run_ret. intros [= <-].
    by apply Forall_singleton.
  - rewrite run_cell_states_S. intros H.
    apply rbind_ok in H as (prev & Hprev & H).
    eapply node_step_shape; [|exact H]. by apply IH.
Qed.

(** With enough rows and logits in the store, and an input the operations
    accept, no step raises. *)
Hypothesis Hsh : accepted c sh.

Lemma mixture_edge_total states node i row :
  uniform sh states → i < length states →
  lookup_row s node i = Some row →
  length (candidate_operations s) ≤ length row →
  ∃ terms, run (mixture_edge states node i []) s = Ok terms ∧ terms ≠ [].
Proof using Hreg Hsh.
  intros Hstates Hi Hrow Hlen.
  destruct (lookup_lt_is_Some_2 states i Hi) as [src Hsrc].
  rewrite (mixture_edge_terms s states node i [] row src Hrow Hsrc Hlen).
  destruct (comprehension_total (λ op, apply_module op src) (candidate_operations s))
    as [ys Hys].
  { intros op Hop. apply (registry_total c _ op src Hreg Hop).
    by rewrite (Forall_lookup_1 _ _ _ _ Hstates Hsrc). }
  rewrite Hys. simpl. eexists. split; [done|].
  apply comprehension_ok, Forall2_length in Hys.
  destruct Hreg as (w3 & w1 & Hops). rewrite Hops in Hys, Hlen. simpl in Hys, Hlen.
  rewrite <- softmax_length in Hlen.
  destruct ys as [|y ys]; [done|]. destruct (softmax row); [simpl in Hlen; lia | done].
Qed.

Lemma node_step_total n ops node states :
  store_shaped n ops (arch_parameters s) → 5 ≤ ops → node < n →
  uniform sh states → length states = node + 1 →
  ∃ states', run (node_step node states) s = Ok states'.
Proof using Hreg Hsh.
  intros [HPlen HP] Hops Hnode Hstates Hlen.
  rewrite run_node_step, node_inputs_concat, eligible_sources_seq by done.
  destruct (lookup_lt_is_Some_2 (arch_parameters s) node) as [m Hm]; [lia|].
  destruct (HP node m Hm) as [Hrows Hcols].
  assert (∀ i, i ∈ seq 0 (node + 1) →
            ∃ terms, run (mixture_edge states node i []) s = Ok terms ∧ terms ≠ [])
    as Hedge.
  { intros i Hi. apply elem_of_seq in Hi.
    destruct (lookup_lt_is_Some_2 m i) as [row Hrow]; [lia|].
    apply (mixture_edge_total states node i row); [done | lia | |].
    - unfold lookup_row. by rewrite Hm.
    - rewrite (Forall_lookup_1 _ _ _ _ Hcols Hrow).
      destruct Hreg as (w3 & w1 & ->). simpl. lia. }
  destruct (comprehension_total (λ i, run (mixture_edge states node i []) s)
              (seq 0 (node + 1))) as [edges Hedges].
  { intros i Hi. destruct (Hedge i Hi) as (terms & -> & _). by eexists. }
  rewrite Hedges. simpl. apply comprehension_ok in Hedges.
  assert (uniform sh (concat edges)) as Hall.
  { apply Forall_concat, Forall_forall. intros terms Hin.
    apply list_elem_of_lookup in Hin as [j Hj].
    destruct (Forall2_lookup_r _ _ _ _ _ Hedges Hj) as (i & _ & Hi).
    by apply (mixture_edge_shape states node i). }
  assert (concat edges ≠ []) as Hne.
  { rewrite Nat.add_1_r in Hedges. rewrite <- cons_seq in Hedges.
    inversion Hedges as [|? terms ? rest H0 _]; subst.
    destruct (Hedge 0) as (terms' & Hterms' & Hnil); [apply elem_of_seq; lia|].
    rewrite H0 in Hterms'. injection Hterms' as <-.
    simpl. destruct terms; [done | discriminate]. }
  destruct (concat edges) as [|t l]; [done|].
  destruct (python_sum_uniform sh t l Hall) as [-> _]. simpl. by eexists.
Qed.

Lemma cell_states_total n ops k x :
  store_shaped n ops (arch_parameters s) → 5 ≤ ops → shape x = sh → k ≤ n →
  ∃ states, run (cell_states k x) s = Ok states.
Proof using Hreg Hsh.
  intros HP Hops Hx. induction k as [|k IH]; intros Hk.
  - by eexists.
  - destruct IH as [states Hstates]; [lia|].
    rewrite run_cell_states_S, Hstates. simpl.
    apply (node_step_total n ops); [done | done | lia | |].
    + by apply (cell_states_shape k x).
    + by apply (cell_states_length k x s).
Qed.
End shapes.

(** * The sources of a node *)

(** Node 2 with its three states, and with a list that would be longer. *)
Example eligible_sources_node_2 :
  eligible_sources 2 [one_pixel; one_pixel; one_pixel] = [0; 1; 2] ∧
  eligible_sources 2 (replicate 7 one_pixel) = [0; 1; 2; 3].
Proof. split; reflexivity. Qed.

(** C1, as the code has it. When node [k] is reached the state list has
    [k + 1] entries and the loop goes on with the step of node [k]; so the
    sources of node [k] are the positions [0 .. k]:
    [k + 1] edges (the input and the [k] earlier node outputs), not
    [k + 2]. Each of them is evaluated, with one term per operation; the
    node's output is Python's [sum] of the terms of these [k + 1] edges,
    taken edge after edge, and it is appended to the state list. Where the
    terms have one shape, as they have for the operations of [__init__],
    that output is the entry-by-entry sum of the [k + 1] edge outputs, each
    the sum of the terms of its edge. *)
Theorem node_reads_earlier_states s x k states :
  run (cell_states k x) s = Ok states →
  length states = k + 1 ∧
  eligible_sources k states = seq 0 (k + 1) ∧
  run (cell_states (S k) x) s = run (node_step k states) s ∧
  run (node_step k states) s =
    rbind (comprehension (λ i, run (mixture_edge states k i []) s) (seq 0 (k + 1)))
      (λ edges, rbind (python_sum (concat edges)) (λ out, Ok (states ++ [out]))) ∧
  ∀ edges,
    comprehension (λ i, run (mixture_edge states k i []) s) (seq 0 (k + 1)) = Ok edges →
    length edges = k + 1 ∧
    length (concat edges) = (k + 1) * length (candidate_operations s) ∧
    (∀ c, is_registry c (candidate_operations s) →
          Forall (uniform (shape x)) edges) ∧
    ∀ sh out,
      Forall (uniform sh) edges →
      python_sum (concat edges) = Ok out →
      ∃ outs, Forall2 (λ terms e, python_sum terms = Ok e) edges outs ∧
              length outs = k + 1 ∧ python_sum outs = Ok out.
Proof.
  intros Hstates. apply cell_states_length in Hstates as Hlen.
  split; [done|]. split; [by apply eligible_sources_seq|]. split.
  { by rewrite run_cell_states_S, Hstates. }
  split.
  { rewrite run_node_step, node_inputs_concat, eligible_sources_seq by done.
    by destruct (comprehension _ _). }
  intros edges Hedges. apply comprehension_ok in Hedges.
  pose proof (Forall2_length _ _ _ Hedges) as Hcount. rewrite length_seq in Hcount.
  assert (Forall (λ terms, length terms = length (candidate_operations s)) edges)
    as Hterms.
  { apply Forall_forall. intros terms Hin.
    apply list_elem_of_lookup in Hin as [j Hj].
    destruct (Forall2_lookup_r _ _ _ _ _ Hedges Hj) as (i & _ & Hi).
    by apply mixture_edge_count in Hi. }
  split; [done|]. split.
  { rewrite (concat_length_uniform _ _ Hterms). by rewrite <- Hcount. }
  split.
  { intros c Hreg. apply Forall_forall. intros terms Hin.
    apply list_elem_of_lookup in Hin as [j Hj].
    destruct (Forall2_lookup_r _ _ _ _ _ Hedges Hj) as (i & _ & Hi).
    apply (mixture_edge_shape s c (shape x) Hreg states k i); [|done].
    by apply (cell_states_shape s c (shape x) Hreg k x). }
  intros sh out Hsh Hout.
  destruct (edge_sums_exist sh edges Hsh) as [outs Houts].
  { eapply Forall_impl; [exact Hterms|]. simpl. intros terms Hl ->.
    simpl in Hl. apply concat_length_uniform in Hterms.
    rewrite <- Hl, Nat.mul_0_r in Hterms.
    apply nil_length_inv in Hterms. by rewrite Hterms in Hout. }
  exists outs. split; [done|]. split.
  - apply Forall2_length in Houts. lia.
  - by rewrite <- (python_sum_edges sh edges outs).
Qed.

Lemma node_reads_earlier_states_witness :
  run (cell_states 0 pixel_row) one_node_cell = Ok [pixel_row] ∧
  length [pixel_row] = 0 + 1 ∧
  eligible_sources 0 [pixel_row] = seq 0 (0 + 1).
Proof.
  assert (run (cell_states 0 pixel_row) one_node_cell = Ok [pixel_row]) as H
    by reflexivity.
  destruct (node_reads_earlier_states one_node_cell pixel_row 0 [pixel_row] H)
    as (H1 & H2 & _).
  exact (conj H (conj H1 H2)).
Defined.

(** C1 fails: node 0 of a one-node cell finds the input as its only state;
    it has one source, position 0, and collects five terms (one edge of
    five operations), where two edges would give ten. *)
Lemma node_zero_has_one_edge :
  run (cell_states 0 pixel_row) one_node_cell = Ok [pixel_row] ∧
  eligible_sources 0 [pixel_row] = [0] ∧
  length (eligible_sources 0 [pixel_row]) ≠ 0 + 2 ∧
  ∃ inputs, run (node_inputs_of [pixel_row] 0) one_node_cell = Ok inputs ∧
            length inputs = 5.
Proof.
  split; [reflexivity|]. split; [reflexivity|]. split; [simpl; lia|].
  eexists. split; reflexivity.
Qed.

Lemma last_item_elem {A} (l : list A) (a : A) : last_item l = Ok a → a ∈ l.
Proof.
  unfold last_item. destruct (last l) as [a'|] eqn:E; [|done].
  intros [= <-]. by apply last_Some_elem_of.
Qed.

Lemma last_item_total {A} (l : list A) : l ≠ [] → ∃ a, last_item l = Ok a.
Proof.
  intros H. apply last_is_Some in H as [a Ha].
  exists a. unfold last_item. by rewrite Ha.
Qed.



(** * A cell whose only operation is the identity *)

Lemma mul_scalar_one t : mul_scalar 1 t = t.
Proof.
  destruct t as [n c h w v]. unfold mul_scalar. simpl. f_equal.
  induction v as [|a v IH]; csimpl; [done|]. by rewrite IH, Rmult_1_l.
Qed.

Lemma tadd_mul_scalar a b t :
  tadd (mul_scalar a t) (mul_scalar b t) = mul_scalar (a + b) t.
Proof.
  destruct t as [n c h w v]. unfold tadd, mul_scalar. simpl. f_equal.
  induction v as [|u v IH]; csimpl; [done|]. rewrite IH. f_equal. lra.
Qed.

Lemma softmax_singleton (a : R) : softmax [a] = [1%R].
Proof.
  unfold softmax. csimpl. f_equal. pose proof (exp_pos a). field. lra.
Qed.

Lemma Rsum_app (u v : list R) : Rsum (u ++ v) = (Rsum u + Rsum v)%R.
Proof. induction u as [|a u IH]; simpl; [lra|]. rewrite IH. lra. Qed.

Lemma doubling_S k : doubling (S k) = doubling k ++ [(2 ^ k)%R].
Proof. unfold doubling. by rewrite seq_S, fmap_app. Qed.

Lemma doubling_length k : length (doubling k) = k + 1.
Proof. unfold doubling. simpl. rewrite length_fmap, length_seq. lia. Qed.

Lemma Rsum_doubling k : Rsum (doubling k) = (2 ^ k)%R.
Proof.
  induction k as [|k IH]; [simpl; lra|].
  rewrite doubling_S, Rsum_app, IH. simpl. lra.
Qed.

Lemma fold_tadd_multiples x (cs : list R) (z : R) :
  fold_left tadd ((λ c, mul_scalar c x) <$> cs) (mul_scalar z x) =
  mul_scalar (z + Rsum cs) x.
Proof.
  revert z. induction cs as [|c cs IH]; intros z; csimpl.
  - by rewrite Rplus_0_r.
  - rewrite tadd_mul_scalar, IH. f_equal. lra.
Qed.

Lemma python_sum_multiples x (c : R) (cs : list R) :
  python_sum ((λ c', mul_scalar c' x) <$> (c :: cs)) =
  Ok (mul_scalar (Rsum (c :: cs)) x).
Proof.
  rewrite fmap_cons.
  destruct (python_sum_uniform (shape x) (mul_scalar c x)
              ((λ c', mul_scalar c' x) <$> cs)) as [-> _].
  { constructor; [done|]. apply Forall_fmap, Forall_forall. by intros. }
  by rewrite fold_tadd_multiples.
Qed.

Lemma python_sum_doubling x k :
  python_sum ((λ c, mul_scalar c x) <$> doubling k) = Ok (mul_scalar (2 ^ k) x).
Proof.
  rewrite <- Rsum_doubling. unfold doubling. apply python_sum_multiples.
Qed.

Lemma concat_singletons {A} (l : list A) : concat ((λ a, [a]) <$> l) = l.
Proof. induction l as [|a l IH]; csimpl; [done|]. by rewrite IH. Qed.

Section identity_only.
Variables (s : cell) (n : nat).
Hypothesis Hops : candidate_operations s = [Identity].
Hypothesis Hstore : store_shaped n 1 (arch_parameters s).

(** An edge of such a cell hands its source on. *)
Lemma identity_edge states node i src :
  node < n → i < node + 2 → states !! i = Some src →
  run (mixture_edge states node i []) s = Ok [src].
Proof using Hops Hstore.
  intros Hnode Hi Hsrc. destruct Hstore as [HPlen HP].
  destruct (lookup_lt_is_Some_2 (arch_parameters s) node) as [m Hm]; [lia|].
  destruct (HP node m Hm) as [Hrows Hcols].
  destruct (lookup_lt_is_Some_2 m i) as [row Hrow]; [lia|].
  pose proof (Forall_lookup_1 _ _ _ _ Hcols Hrow) as Hlen. simpl in Hlen.
  destruct row as [|a [|b row]]; try done.
  rewrite (mixture_edge_terms s states node i [] [a] src); try done.
  - rewrite Hops, softmax_singleton.
    cbn [comprehension apply_module rbind zip_with app].
    by rewrite mul_scalar_one.
  - unfold lookup_row. by rewrite Hm.
  - by rewrite Hops.
Qed.

(** A node of such a cell outputs the sum of the states before it. *)
Lemma identity_node_inputs states node :
  node < n → length states = node + 1 →
  run (node_inputs_of states node) s = Ok states.
Proof using Hops Hstore.
  intros Hnode Hlen.
  rewrite node_inputs_concat, eligible_sources_seq by done.
  assert (comprehension (λ i, run (mixture_edge states node i []) s)
            (seq 0 (node + 1)) = Ok ((λ t, [t]) <$> states)) as ->.
  { apply comprehension_ok, Forall2_same_length_lookup_2.
    - by rewrite length_seq, length_fmap.
    - intros i j terms Hj Hterms. apply lookup_seq in Hj as [-> Hi].
      rewrite list_lookup_fmap in Hterms.
      destruct (states !! i) as [src|] eqn:Hsrc; [|done].
      injection Hterms as <-. apply identity_edge; [done | lia | done]. }
  simpl. by rewrite concat_singletons.
Qed.

Lemma identity_cell_states x k :
  k ≤ n →
  run (cell_states k x) s = Ok ((λ c, mul_scalar c x) <$> doubling k).
Proof using Hops Hstore.
  induction k as [|k IH]; intros Hk.
  - unfold cell_states, doubling. simpl. by rewrite mul_scalar_one.
  - rewrite run_cell_states_S, IH by lia. cbn [rbind].
    rewrite run_node_step, identity_node_inputs;
      [| lia | by rewrite length_fmap, doubling_length].
    cbn [rbind]. rewrite python_sum_doubling. cbn [rbind].
    by rewrite doubling_S, fmap_app.
Qed.

End identity_only.

Lemma two_identity_nodes_shaped :
  store_shaped 2 1 (arch_parameters two_identity_nodes).
Proof.
  split; [done|]. intros [|[|k]] m; simpl; intros [= <-];
    (split; [done | repeat constructor]).
Qed.




Lemma last_row_is_ignored_witness :
  differ_at_most_in_row 0 (0 + 1) (one_identity_node [0%R]) (one_identity_node [7%R]) ∧
  run (forward one_pixel) (one_identity_node [0%R]) =
  run (forward one_pixel) (one_identity_node [7%R]).
Proof.
  assert (differ_at_most_in_row 0 (0 + 1)
            (one_identity_node [0%R]) (one_identity_node [7%R])) as H.
  { split; [reflexivity|]. split; [reflexivity|].
    intros [|node] [|[|i]] Hne; try reflexivity. by destruct Hne. }
  split; [exact H | exact (last_row_is_ignored 0 _ _ one_pixel H)].
Defined.

(** * More on the forward pass of the cell *)

(** ** When the first node raises *)

Lemma node_zero_raises x s e :
  run (mixture_edge [x] 0 0 []) s = Raise e →
  run (node_step 0 [x]) s = Raise e.
Proof.
  intros H. rewrite run_node_step, run_node_inputs_of.
  unfold eligible_sources. simpl. by rewrite H.
Qed.

Lemma forward_raises_at_node_zero x s e :
  (1 ≤ num_nodes s)%Z →
  run (mixture_edge [x] 0 0 []) s = Raise e →
  run (forward x) s = Raise e.
Proof.
  intros Hn H. apply node_zero_raises in H.
  rewrite run_forward. unfold cell_states. rewrite run_for by (intros; apply _).
  destruct (Z.to_nat (num_nodes s)) as [|n] eqn:E; [lia|].
  simpl. by rewrite H.
Qed.

(** The first row of a constructed cell with at least one node. *)
Lemma init_first_row d n ops c s :
  __init__ d n ops c = Ok s → (1 ≤ n)%Z →
  ∃ row, lookup_row s 0 0 = Some row ∧ length row = Z.to_nat ops.
Proof.
  intros Hinit Hn. destruct (init_store_shaped _ _ _ _ _ Hinit) as [Hlen HP].
  destruct (lookup_lt_is_Some_2 (arch_parameters s) 0) as [m Hm]; [lia|].
  destruct (HP 0 m Hm) as [Hrows Hcols].
  destruct (lookup_lt_is_Some_2 m 0) as [row Hrow]; [lia|].
  exists row. split; [unfold lookup_row; by rewrite Hm|].
  by apply (Forall_lookup_1 _ _ _ _ Hcols Hrow).
Qed.




(** X2. A constructed cell with at least one node and at least two logits
    per edge raises [RuntimeError] on an input whose channel count is not
    the one it was built for: the first convolution refuses it. *)
Theorem wrong_channel_count_raises d n ops c s x :
  __init__ d n ops c = Ok s →
  (1 ≤ n)%Z → (2 ≤ ops)%Z →
  channels x ≠ Z.to_nat c →
  run (forward x) s = Raise RuntimeError.
Proof.
  intros Hinit Hn Hops Hx.
  destruct (init_first_row _ _ _ _ _ Hinit Hn) as (row & Hrow & Hlen).
  apply init_ok in Hinit as (Hnodes & _ & _ & _ & Hreg & _).
  apply forward_raises_at_node_zero; [lia|].
  rewrite run_mixture_edge, run_arch_row, Hrow. cbn [rbind].
  destruct Hreg as (w3 & w1 & ->).
  destruct row as [|a [|b row]]; [simpl in Hlen; lia | simpl in Hlen; lia |].
  unfold enumerate. simpl. unfold weighted_op at 1. simpl.
  unfold weighted_op at 1. simpl. unfold conv2d.
  apply Nat.eqb_neq in Hx. by rewrite Hx.
Qed.

Lemma wrong_channel_count_raises_witness :
  ∃ s, __init__ zero_draws 1 5 4 = Ok s ∧
       run (forward one_pixel) s = Raise RuntimeError.
Proof.
  eexists. split; [reflexivity|].
  apply (wrong_channel_count_raises zero_draws 1 5 4 _ one_pixel eq_refl);
    [lia | lia | simpl; lia].
Defined.

(** ** More logits than operations *)




(** ** The state list *)

Lemma node_step_appends node states s states' :
  run (node_step node states) s = Ok states' →
  ∃ out, states' = states ++ [out].
Proof.
  rewrite run_node_step. intros H.
  apply rbind_ok in H as (l & _ & H). apply rbind_ok in H as (out & _ & [= <-]).
  by exists out.
Qed.

Lemma cell_states_head k x s states :
  run (cell_states k x) s = Ok states → states !! 0 = Some x.
Proof.
  revert states. induction k as [|k IH]; intros states.
  - unfold cell_states. simpl. rewrite run_ret. by intros [= <-].
  - rewrite run_cell_states_S. intros H.
    apply rbind_ok in H as (prev & Hprev & H).
    apply node_step_appends in H as [out ->].
    rewrite lookup_app_l; [by apply IH|].
    apply cell_states_length in Hprev. lia.
Qed.

(** X5. The state list is an append-only history: what it holds after [k]
    nodes is still there, unchanged and in place, after any number of
    further nodes, and its first entry is the input. *)
Theorem states_are_append_only s x k j later :
  run (cell_states (k + j) x) s = Ok later →
  ∃ earlier,
    run (cell_states k x) s = Ok earlier ∧
    length earlier = k + 1 ∧
    earlier `prefix_of` later ∧
    later !! 0 = Some x.
Proof.
  revert later. induction j as [|j IH]; intros later Hlater.
  - rewrite Nat.add_0_r in Hlater. exists later.
    split; [done|]. split; [by apply cell_states_length in Hlater|].
    split; [done | by apply cell_states_head in Hlater].
  - pose proof (cell_states_head _ _ _ _ Hlater) as Hhead.
    rewrite Nat.add_succ_r, run_cell_states_S in Hlater.
    apply rbind_ok in Hlater as (prev & Hprev & Hstep).
    apply node_step_appends in Hstep as [out ->].
    destruct (IH prev Hprev) as (earlier & He & Hlen & Hpre & _).
    exists earlier. repeat split; try done.
    by apply prefix_app_r.
Qed.


Lemma states_are_append_only_witness :
  ∃ earlier,
    run (cell_states 1 one_pixel) two_identity_nodes = Ok earlier ∧
    length earlier = 1 + 1 ∧
    earlier `prefix_of` ((λ c, mul_scalar c one_pixel) <$> doubling 2) ∧
    ((λ c, mul_scalar c one_pixel) <$> doubling 2) !! 0 = Some one_pixel.
Proof.
  apply (states_are_append_only two_identity_nodes one_pixel 1 1).
  apply (identity_cell_states two_identity_nodes 2 eq_refl
           two_identity_nodes_shaped one_pixel 2). lia.
Defined.

(** ** Logits up to a constant *)

Lemma Rsum_scale (c : R) (l : list R) : Rsum (Rmult c <$> l) = (c * Rsum l)%R.
Proof. induction l as [|a l IH]; csimpl; [lra|]. rewrite IH. lra. Qed.



Section same_weights.
Variables (s s' : cell).
Hypothesis Hnodes : num_nodes s = num_nodes s'.
Hypothesis Hops : candidate_operations s = candidate_operations s'.
Hypothesis Hweights :
  ∀ node i, softmax <$> lookup_row s node i = softmax <$> lookup_row s' node i.


End same_weights.



(** Shifting does change the store. *)
Remark shift_logits_changes_the_store :
  arch_parameters (shift_logits (λ _ _, 1%R) two_identity_nodes) ≠
  arch_parameters two_identity_nodes.
Proof. simpl. intros [= H]. lra. Qed.

(** ** Equal logits *)

Lemma Rsum_replicate (n : nat) (a : R) : Rsum (replicate n a) = (INR n * a)%R.
Proof.
  induction n as [|n IH]; [simpl; lra|].
  rewrite S_INR. simpl replicate. simpl Rsum. rewrite IH. lra.
Qed.

Lemma softmax_replicate (n : nat) (a : R) :
  softmax (replicate n a) = replicate n (/ INR n)%R.
Proof.
  unfold softmax. rewrite !fmap_replicate. destruct n as [|n]; [done|].
  f_equal. rewrite Rsum_replicate.
  pose proof (exp_pos a).
  assert (0 < INR (S n))%R by (apply lt_0_INR; lia).
  field. split; lra.
Qed.

(** X7. An edge whose logits are all equal, one per operation, weighs
    every operation by [1 / num_ops]: its terms are the outputs of the
    operations divided by their number. *)
Theorem equal_logits_average s states node i acc (a : R) src :
  lookup_row s node i = Some (replicate (length (candidate_operations s)) a) →
  states !! i = Some src →
  run (mixture_edge states node i acc) s =
    rbind (comprehension (λ op, apply_module op src) (candidate_operations s))
      (λ ys, Ok (acc ++ (mul_scalar (/ INR (length (candidate_operations s))) <$> ys))).
Proof.
  intros Hrow Hsrc.
  rewrite (mixture_edge_terms s states node i acc _ src Hrow Hsrc)
    by (by rewrite length_replicate).
  destruct (comprehension _ _) as [ys|e] eqn:E; simpl; [|done].
  apply comprehension_ok, Forall2_length in E.
  rewrite softmax_replicate, zip_with_replicate_l by lia. done.
Qed.

Lemma equal_logits_average_witness :
  run (mixture_edge [pixel_row] 0 0 []) one_node_cell =
    rbind (comprehension (λ op, apply_module op pixel_row)
             (candidate_operations one_node_cell))
      (λ ys, Ok ([] ++ (mul_scalar (/ INR (length (candidate_operations one_node_cell)))
                          <$> ys))).
Proof.
  apply (equal_logits_average one_node_cell [pixel_row] 0 0 [] 0%R pixel_row);
    reflexivity.
Defined.

(** * Scaling the input *)

Lemma fmap_bind_list {A B C} (f : B → C) (g : A → list B) (l : list A) :
  f <$> (l ≫= g) = l ≫= (λ a, f <$> g a).
Proof.
  induction l as [|a l IH]; [done|].
  by rewrite !bind_cons, fmap_app, IH.
Qed.

Lemma bind_ext_list {A B} (f g : A → list B) (l : list A) :
  (∀ a, f a = g a) → l ≫= f = l ≫= g.
Proof.
  intros Hfg. induction l as [|a l IH]; [done|].
  by rewrite !bind_cons, Hfg, IH.
Qed.

Lemma nth_scale (c : R) (l : list R) (i : nat) :
  nth i (Rmult c <$> l) 0%R = (c * nth i l 0)%R.
Proof.
  revert i. induction l as [|a l IH]; intros [|i]; csimpl; try lra; apply IH.
Qed.

Lemma item_mul_scalar c x n ch h w :
  item (mul_scalar c x) n ch h w = (c * item x n ch h w)%R.
Proof. unfold item. simpl. apply nth_scale. Qed.

Lemma padded_mul_scalar c x p n ch a b :
  padded (mul_scalar c x) p n ch a b = (c * padded x p n ch a b)%R.
Proof.
  unfold padded. simpl. destruct (_ && _); [apply item_mul_scalar | lra].
Qed.

Lemma window_mul_scalar c x k p n ch a b :
  window (mul_scalar c x) k p n ch a b = Rmult c <$> window x k p n ch a b.
Proof.
  unfold window. simpl. rewrite fmap_bind_list.
  apply bind_ext_list. intros kh. rewrite fmap_bind_list.
  apply bind_ext_list. intros kw.
  destruct (_ && _); [|done]. csimpl. by rewrite item_mul_scalar.
Qed.

Lemma full_ext n ch h w (f g : nat → nat → nat → nat → R) :
  (∀ a b d e, f a b d e = g a b d e) → full n ch h w f = full n ch h w g.
Proof.
  intros Hfg. unfold full. f_equal.
  apply bind_ext_list. intros a. apply bind_ext_list. intros b.
  apply bind_ext_list. intros d. apply bind_ext_list. intros e.
  by rewrite Hfg.
Qed.

Lemma mul_scalar_full c n ch h w (f : nat → nat → nat → nat → R) :
  mul_scalar c (full n ch h w f) = full n ch h w (λ a b d e, c * f a b d e)%R.
Proof.
  unfold mul_scalar, full. simpl. f_equal.
  rewrite fmap_bind_list. apply bind_ext_list. intros a.
  rewrite fmap_bind_list. apply bind_ext_list. intros b.
  rewrite fmap_bind_list. apply bind_ext_list. intros d.
  rewrite fmap_bind_list. apply bind_ext_list. intros e. done.
Qed.

Lemma Rmax_list_scale (c : R) (l : list R) :
  (0 <= c)%R → Rmax_list (Rmult c <$> l) = (c * Rmax_list l)%R.
Proof.
  intros Hc. destruct l as [|v l]; csimpl; [lra|].
  revert v. induction l as [|a l IH]; intros v; csimpl; [done|].
  by rewrite RmaxRmult, IH.
Qed.

(** A convolution without bias is linear in its input. *)
Lemma conv2d_mul_scalar c cin cout k p weight x :
  conv2d cin cout k p weight (mul_scalar c x) =
  rmap (mul_scalar c) (conv2d cin cout k p weight x).
Proof.
  unfold conv2d. cbn [channels height width batch mul_scalar].
  destruct (negb (channels x =? cin)); [done|].
  destruct (negb (fits k p (height x) (width x))); [done|].
  cbn [rmap]. f_equal. rewrite mul_scalar_full. apply full_ext.
  intros n co h w. rewrite <- Rsum_scale. f_equal.
  rewrite fmap_bind_list. apply bind_ext_list. intros ci.
  rewrite fmap_bind_list. apply bind_ext_list. intros kh.
  rewrite fmap_bind_list. apply bind_ext_list. intros kw.
  csimpl. rewrite padded_mul_scalar. f_equal. lra.
Qed.

Lemma pool2d_mul_scalar (reduce : list R → R) c k s p x :
  (∀ l, reduce (Rmult c <$> l) = (c * reduce l)%R) →
  pool2d reduce k s p (mul_scalar c x) = rmap (mul_scalar c) (pool2d reduce k s p x).
Proof.
  intros Hreduce. unfold pool2d. cbn [channels height width batch mul_scalar].
  destruct (negb _); [done|].
  cbn [rmap]. f_equal. rewrite mul_scalar_full. apply full_ext.
  intros n ch h w. by rewrite window_mul_scalar, Hreduce.
Qed.

(** Every operation commutes with scaling by a factor that is not
    negative: the identity, the convolutions and the average are linear,
    and the maximum commutes with such a factor. *)
Lemma apply_module_mul_scalar c op x :
  (0 <= c)%R →
  apply_module op (mul_scalar c x) = rmap (mul_scalar c) (apply_module op x).
Proof.
  intros Hc. destruct op as [|cin cout k p weight|k s p|k s p]; simpl.
  - done.
  - apply conv2d_mul_scalar.
  - apply pool2d_mul_scalar. intros l. by apply Rmax_list_scale.
  - apply pool2d_mul_scalar. intros l. rewrite Rsum_scale. unfold Rdiv. lra.
Qed.

Lemma mul_scalar_comm a b t :
  mul_scalar a (mul_scalar b t) = mul_scalar b (mul_scalar a t).
Proof.
  unfold mul_scalar. simpl. f_equal. rewrite <- !list_fmap_compose.
  apply list_fmap_ext. intros i v _. simpl. lra.
Qed.

Lemma zip_with_Rplus_scale c (u v : list R) :
  zip_with Rplus (Rmult c <$> u) (Rmult c <$> v) = Rmult c <$> zip_with Rplus u v.
Proof.
  revert v. induction u as [|a u IH]; intros [|b v]; csimpl; try done.
  rewrite IH. f_equal. lra.
Qed.

Lemma add_mul_scalar c a b :
  add (mul_scalar c a) (mul_scalar c b) = rmap (mul_scalar c) (add a b).
Proof.
  unfold add, same_shape. cbn [channels height width batch mul_scalar].
  destruct (_ && _).
  - cbn [rmap]. f_equal. unfold mul_scalar. simpl. f_equal.
    apply zip_with_Rplus_scale.
  - destruct (broadcast_dim (batch a) (batch b)); [|done].
    destruct (broadcast_dim (channels a) (channels b)); [|done].
    destruct (broadcast_dim (height a) (height b)); [|done].
    destruct (broadcast_dim (width a) (width b)); [|done].
    cbn [rmap]. f_equal. rewrite mul_scalar_full. apply full_ext.
    intros n' c' h' w'. fold (mul_scalar c a) (mul_scalar c b).
    rewrite !item_mul_scalar. lra.
Qed.

Lemma rfold_rmap {A X} (h : A → A) (f g : A → X → result A) (l : list X) (a : A) :
  (∀ a' x, f (h a') x = rmap h (g a' x)) →
  rfold f l (h a) = rmap h (rfold g l a).
Proof.
  intros Hf. revert a. induction l as [|x l IH]; intros a; simpl; [done|].
  rewrite Hf. destruct (g a x); simpl; [apply IH | done].
Qed.

Lemma python_sum_mul_scalar c (l : list tensor) :
  python_sum (mul_scalar c <$> l) = rmap (mul_scalar c) (python_sum l).
Proof.
  destruct l as [|t l]; [done|]. csimpl.
  rewrite !radd_zero_id. revert t. induction l as [|u l IH]; intros t; csimpl; [done|].
  rewrite add_mul_scalar. destruct (add t u); simpl; [apply IH | done].
Qed.

Section scaled_input.
Variables (s : cell) (c : R).
Hypothesis Hc : (0 <= c)%R.

Lemma weighted_op_scaled states i ws acc jop :
  weighted_op (scale_all c states) i ws (scale_all c acc) jop =
  rmap (scale_all c) (weighted_op states i ws acc jop).
Proof using Hc.
  unfold weighted_op, scale_all.
  destruct (getitem ws jop.1) as [w|e]; simpl; [|done].
  unfold getitem. rewrite list_lookup_fmap.
  destruct (states !! i) as [src|]; simpl; [|done].
  rewrite apply_module_mul_scalar by done.
  destruct (apply_module jop.2 src) as [y|e]; simpl; [|done].
  by rewrite fmap_app, mul_scalar_comm.
Qed.

Lemma mixture_edge_scaled states node i acc :
  run (mixture_edge (scale_all c states) node i (scale_all c acc)) s =
  rmap (scale_all c) (run (mixture_edge states node i acc) s).
Proof using Hc.
  rewrite !run_mixture_edge.
  destruct (run (arch_row node i) s) as [row|e]; simpl; [|done].
  apply rfold_rmap. intros acc' jop. apply weighted_op_scaled.
Qed.

Lemma node_step_scaled node states :
  run (node_step node (scale_all c states)) s =
  rmap (scale_all c) (run (node_step node states) s).
Proof using Hc.
  rewrite !run_node_step, !run_node_inputs_of.
  assert (eligible_sources node (scale_all c states) = eligible_sources node states) as ->.
  { unfold eligible_sources, scale_all. by rewrite length_fmap. }
  change (@nil tensor) with (scale_all c []) at 1.
  rewrite (rfold_rmap (scale_all c) _ (λ acc i, run (mixture_edge states node i acc) s))
    by (intros; apply mixture_edge_scaled).
  destruct (rfold _ _ []) as [inputs|e]; simpl; [|done].
  unfold scale_all. rewrite python_sum_mul_scalar.
  destruct (python_sum inputs) as [out|e]; simpl; [|done].
  by rewrite fmap_app.
Qed.

Lemma cell_states_scaled n x :
  run (cell_states n (mul_scalar c x)) s =
  rmap (scale_all c) (run (cell_states n x) s).
Proof using Hc.
  unfold cell_states. rewrite !run_for by (intros; apply _).
  change [mul_scalar c x] with (scale_all c [x]).
  apply rfold_rmap. intros states node. apply node_step_scaled.
Qed.
End scaled_input.

(** X4. The cell is positively homogeneous: scaling the input by a factor
    [c >= 0] scales the output by [c], and [forward] raises on the scaled
    input exactly when it raises on the input, with the same exception.
    This holds for every cell; none of the operations has a bias. *)
Theorem forward_scales_with_input (s : cell) (c : R) (x : tensor) :
  (0 <= c)%R →
  run (forward (mul_scalar c x)) s = rmap (mul_scalar c) (run (forward x) s).
Proof.
  intros Hc. rewrite !run_forward, cell_states_scaled by done.
  destruct (run (cell_states _ x) s) as [states|e]; simpl; [|done].
  unfold last_item, scale_all. rewrite fmap_last. by destruct (last states).
Qed.

Lemma forward_scales_with_input_witness :
  run (forward (mul_scalar 3 pixel_row)) one_node_cell =
  rmap (mul_scalar 3) (run (forward pixel_row) one_node_cell).
Proof. apply forward_scales_with_input. lra. Defined.

(** * The channel count of the stem *)

Lemma first_channels_skip (skipped rest : list layer) :
  Forall (λ l, channels_of l = None) skipped →
  first_channels (skipped ++ rest) = first_channels rest.
Proof.
  induction 1 as [|l skipped Hl _ IH]; [done|]. simpl.
  unfold channels_of in Hl.
  destruct (num_features_of l); [done|]. by destruct (out_channels_of l).
Qed.

Lemma first_channels_hit (l : layer) (rest : list layer) (n : nat) :
  channels_of l = Some n → first_channels (l :: rest) = Some n.
Proof.
  unfold channels_of. simpl.
  destruct (num_features_of l); [done|]. by intros ->.
Qed.

Lemma first_channels_none (layers : list layer) :
  first_channels layers = None ↔ Forall (λ l, channels_of l = None) layers.
Proof.
  induction layers as [|l layers IH]; simpl; [by split; [constructor|]|].
  unfold channels_of at 1.
  destruct (num_features_of l) eqn:E1; [|destruct (out_channels_of l) eqn:E2].
  - split; [done|]. inversion 1 as [|?? Hl _]; subst.
    unfold channels_of in Hl. by rewrite E1 in Hl.
  - split; [done|]. inversion 1 as [|?? Hl _]; subst.
    unfold channels_of in Hl. by rewrite E1, E2 in Hl.
  - rewrite IH. split.
    + intros H. constructor; [|done]. unfold channels_of. by rewrite E1.
    + by inversion 1.
Qed.

(** X8. On a [Sequential], [_get_output_channels] returns the channel
    attribute ([num_features] or [out_channels]) of the last layer that has
    one: the layers after it, which have none, are passed over, and the
    layers before it are not looked at. *)
Theorem last_layer_with_channels_decides (before after : list layer) (l : layer) (n : nat) :
  channels_of l = Some n →
  Forall (λ l', channels_of l' = None) after →
  _get_output_channels (Sequential (before ++ l :: after)) = Returns (Some n).
Proof.
  intros Hl Hafter. unfold _get_output_channels. simpl.
  rewrite reverse_app, reverse_cons, <- (assoc_L (++)). simpl.
  rewrite first_channels_skip by (by rewrite Forall_reverse).
  by rewrite (first_channels_hit l _ n).
Qed.

Lemma last_layer_with_channels_decides_witness :
  _get_output_channels
    (Sequential ([Op (Conv2d 3 16 3 1 one_pixel)] ++ new_BatchNorm2d 8 :: [ReLU; Op Identity]))
  = Returns (Some 8).
Proof.
  apply last_layer_with_channels_decides; [reflexivity|].
  repeat constructor.
Defined.

(** X9. [_get_output_channels] raises [ValueError] exactly on a module
    that has neither attribute and is no [Sequential]; on a [Sequential]
    none of whose layers has an attribute it raises nothing and returns
    [None], and this is the only case in which it does. Layers nested in
    an inner [Sequential] are not searched. *)
Theorem channels_not_found (module : layer) :
  (_get_output_channels module = Raises ValueError ↔
     channels_of module = None ∧ ∀ body, module ≠ Sequential body) ∧
  (_get_output_channels module = Returns None ↔
     ∃ body, module = Sequential body ∧ Forall (λ l, channels_of l = None) body) ∧
  _get_output_channels (Sequential [Sequential [Op (Conv2d 3 16 3 1 one_pixel)]])
    = Returns None.
Proof.
  split; [|split; [|done]].
  - unfold _get_output_channels, channels_of.
    destruct module as [[| ? ? ? ? ?| |]| | |body]; simpl; split;
      try done; try (intros [? ?]; congruence);
      try (intros _; split; [done|]; intros; discriminate).
    intros [_ H]. by destruct (H body).
  - unfold _get_output_channels, channels_of.
    destruct module as [[| ? ? ? ? ?| |]| | |body]; simpl; split;
      try done; try (intros (? & ? & ?); congruence).
    + intros [= H]. exists body. split; [done|].
      apply first_channels_none in H. by rewrite Forall_reverse in H.
    + intros (body' & [= <-] & H). f_equal.
      apply first_channels_none. by rewrite Forall_reverse.
Qed.

(** * The network *)

(** ** Its layers *)

Lemma apply_layer_Sequential training body x :
  apply_layer training (Sequential body) x =
  let '(r, body') := apply_layers training body x in (r, Sequential body').
Proof.
  revert x. induction body as [|l0 ls IH]; intros x; [done|].
  cbn [apply_layer apply_layers] in *.
  destruct (apply_layer training l0 x) as [[y|e] l0']; [|done].
  specialize (IH y).
  destruct (apply_layers training ls y) as [r1 ls1].
  destruct ((fix go (ls0 : list layer) (x0 : tensor) {struct ls0} := _) ls y)
    as [r2 ls2].
  by injection IH as -> ->.
Qed.

Lemma conv2d_same_size cin cout weight x :
  channels x = cin → 1 ≤ height x → 1 ≤ width x →
  ∃ y, conv2d cin cout 3 1 weight x = Ok y ∧
       shape y = (batch x, cout, height x, width x).
Proof.
  intros Hc Hh Hw. unfold conv2d.
  apply Nat.eqb_eq in Hc. rewrite Hc. cbn [negb].
  assert (fits 3 1 (height x) (width x) = true) as ->.
  { unfold fits. rewrite !andb_true_iff, !Nat.leb_le. lia. }
  cbn [negb]. eexists. split; [done|].
  unfold shape, full. cbn [batch channels height width]. repeat f_equal; lia.
Qed.

Lemma batch_norm_training n b x :
  batch x * height x * width x ≠ 1 → channels x = n →
  ∃ y b', batch_norm true n b x = (Returns y, b') ∧ shape y = shape x ∧
          num_batches_tracked b' = (num_batches_tracked b + 1)%Z ∧
          bn_weight b' = bn_weight b ∧ bn_bias b' = bn_bias b.
Proof.
  intros Hm Hc. unfold batch_norm.
  apply Nat.eqb_neq in Hm. apply Nat.eqb_eq in Hc. rewrite Hm, Hc. cbn [negb].
  by eexists _, _.
Qed.

Lemma batch_norm_single_value n b x :
  batch x * height x * width x = 1 →
  batch_norm true n b x = (Raises ValueError, count_batch b).
Proof. intros Hm. unfold batch_norm. apply Nat.eqb_eq in Hm. by rewrite Hm. Qed.

Lemma batch_norm_eval n b x :
  channels x = n →
  ∃ y, batch_norm false n b x = (Returns y, b) ∧ shape y = shape x.
Proof.
  intros Hc. unfold batch_norm. apply Nat.eqb_eq in Hc. rewrite Hc. cbn [negb].
  by eexists.
Qed.

(** In evaluation mode no layer is written. *)
Lemma apply_layer_eval : ∀ (l : layer) (x : tensor), (apply_layer false l x).2 = l.
Proof.
  fix IH 1. intros [m|n b| |body] x.
  - done.
  - cbn [apply_layer]. unfold batch_norm. by destruct (negb _).
  - done.
  - rewrite apply_layer_Sequential.
    assert (∀ y, (apply_layers false body y).2 = body) as Hbody.
    { induction body as [|l0 ls IHls]; intros y; [done|].
      cbn [apply_layers]. pose proof (IH l0 y) as Hl0.
      destruct (apply_layer false l0 y) as [[z|e] l0']; simpl in Hl0; subst.
      - specialize (IHls z). destruct (apply_layers false ls z) as [r ls'].
        simpl in *. by subst.
      - done. }
    specialize (Hbody x). destruct (apply_layers false body x) as [r body'].
    simpl in *. by subst.
Qed.

Lemma relu_shape x : shape (relu x) = shape x.
Proof. done. Qed.

(** A convolution, a normalisation and a [ReLU] in a row, as the stem has
    three of. *)
Lemma stem_block training cin cout weight b (rest : list layer) x :
  channels x = cin → 1 ≤ height x → 1 ≤ width x →
  (training = true → batch x * height x * width x ≠ 1) →
  ∃ y b',
    shape y = (batch x, cout, height x, width x) ∧
    num_batches_tracked b' =
      (if training then num_batches_tracked b + 1 else num_batches_tracked b)%Z ∧
    (training = false → b' = b) ∧
    apply_layers training
      (Op (Conv2d cin cout 3 1 weight) :: BatchNorm2d cout b :: ReLU :: rest) x =
    let '(r, rest') := apply_layers training rest y in
    (r, Op (Conv2d cin cout 3 1 weight) :: BatchNorm2d cout b' :: ReLU :: rest').
Proof.
  intros Hc Hh Hw Hm.
  destruct (conv2d_same_size cin cout weight x Hc Hh Hw) as (y1 & Hy1 & Hs1).
  pose proof Hs1 as Hs1'. unfold shape in Hs1'. injection Hs1' as Hb1 Hc1 Hh1 Hw1.
  destruct training.
  - destruct (batch_norm_training cout b y1) as (y2 & b' & Hy2 & Hs2 & Hn & _).
    { rewrite Hb1, Hh1, Hw1. by apply Hm. }
    { done. }
    exists (relu y2), b'. split; [by rewrite relu_shape, Hs2|].
    split; [done|]. split; [done|].
    cbn [apply_layers apply_layer apply_module]. rewrite Hy1. cbn [of_result].
    rewrite Hy2. by destruct (apply_layers true rest (relu y2)).
  - destruct (batch_norm_eval cout b y1 Hc1) as (y2 & Hy2 & Hs2).
    exists (relu y2), b. split; [by rewrite relu_shape, Hs2|].
    split; [done|]. split; [done|].
    cbn [apply_layers apply_layer apply_module]. rewrite Hy1. cbn [of_result].
    rewrite Hy2. by destruct (apply_layers false rest (relu y2)).
Qed.

(** The stem on a batch of three-channel images: 64 channels of the same
    size come out; in training mode every normalisation has counted the
    batch, and nothing else of the stem's structure has changed. *)
Lemma stem_forward training st x :
  is_stem st →
  channels x = 3 → 1 ≤ height x → 1 ≤ width x →
  (training = true → batch x * height x * width x ≠ 1) →
  ∃ y st',
    apply_layer training st x = (Returns y, st') ∧
    shape y = (batch x, 64, height x, width x) ∧
    is_stem st' ∧
    kernels st' = kernels st ∧
    batch_counters st' =
      (if training then (λ z, z + 1)%Z <$> batch_counters st else batch_counters st) ∧
    (training = false → st' = st).
Proof.
  intros (w1 & w2 & w3 & b1 & b2 & b3 & ->) Hc Hh Hw Hm.
  rewrite apply_layer_Sequential.
  destruct (stem_block training 3 16 w1 b1
              [Op (Conv2d 16 32 3 1 w2); BatchNorm2d 32 b2; ReLU;
               Op (Conv2d 32 64 3 1 w3); BatchNorm2d 64 b3; ReLU] x Hc Hh Hw Hm)
    as (y1 & b1' & Hs1 & Hn1 & He1 & ->).
  pose proof Hs1 as Hs1'. unfold shape in Hs1'. injection Hs1' as Hb1 Hc1 Hh1 Hw1.
  destruct (stem_block training 16 32 w2 b2
              [Op (Conv2d 32 64 3 1 w3); BatchNorm2d 64 b3; ReLU] y1)
    as (y2 & b2' & Hs2 & Hn2 & He2 & ->); [done | lia | lia | |].
  { rewrite Hb1, Hh1, Hw1. done. }
  pose proof Hs2 as Hs2'. unfold shape in Hs2'. injection Hs2' as Hb2 Hc2 Hh2 Hw2.
  destruct (stem_block training 32 64 w3 b3 [] y2)
    as (y3 & b3' & Hs3 & Hn3 & He3 & ->); [done | lia | lia | |].
  { rewrite Hb2, Hh2, Hw2, Hb1, Hh1, Hw1. done. }
  cbn [apply_layers].
  exists y3, (Sequential [Op (Conv2d 3 16 3 1 w1); BatchNorm2d 16 b1'; ReLU;
                          Op (Conv2d 16 32 3 1 w2); BatchNorm2d 32 b2'; ReLU;
                          Op (Conv2d 32 64 3 1 w3); BatchNorm2d 64 b3'; ReLU]).
  split; [done|]. split; [rewrite Hs3; congruence|].
  split; [by exists w1, w2, w3, b1', b2', b3'|].
  split; [done|]. split.
  - cbn. rewrite Hn1, Hn2, Hn3. by destruct training.
  - intros Htr. by rewrite (He1 Htr), (He2 Htr), (He3 Htr).
Qed.

(** ** The cell and the classifier inside the network *)

Lemma forward_outcome x s : forward x s = (run (forward x) s, s).
Proof.
  unfold run. pose proof (forward_read_only x s) as H.
  destruct (forward x s) as [r s']. simpl in *. by subst.
Qed.

(** A cell with the operations of the constructor and a store of the
    right shape returns, on an input it accepts, a map of the input's
    shape. *)
Lemma configured_cell_returns s c n ops x :
  is_registry c (candidate_operations s) →
  store_shaped n ops (arch_parameters s) →
  Z.to_nat (num_nodes s) = n → 5 ≤ ops → accepted c (shape x) →
  ∃ y, run (forward x) s = Ok y ∧ shape y = shape x.
Proof.
  intros Hreg Hstore Hn Hops Hacc. rewrite run_forward, Hn.
  destruct (cell_states_total s c (shape x) Hreg Hacc n ops n x)
    as [states Hstates]; [done | done | done | done |].
  rewrite Hstates. cbn [rbind].
  destruct (last_item_total states) as [y Hy].
  { apply cell_states_length in Hstates. destruct states; [simpl in *; lia | done]. }
  exists y. split; [done|].
  apply (cell_states_shape s c (shape x) Hreg) in Hstates; [|done].
  apply last_item_elem in Hy. by apply (proj1 (Forall_forall _ _) Hstates).
Qed.

(** The classifier turns a batch of maps with as many channels as the
    linear layer has inputs into one row of logits per sample. *)
Lemma classify_returns l x :
  channels x = in_features l → 1 ≤ height x → 1 ≤ width x →
  ∃ logits, classify l x = Ok logits ∧
            rows logits = batch x ∧ cols logits = out_features l.
Proof.
  intros Hc Hh Hw. unfold classify, adaptive_avg_pool2d_1.
  assert ((height x =? 0) || (width x =? 0) = false) as ->.
  { apply orb_false_iff. split; apply Nat.eqb_neq; lia. }
  cbn [rbind]. unfold linear_forward, flatten, full. cbn [cols channels height width batch].
  assert ((channels x * 1 * 1 =? in_features l) = true) as ->.
  { apply Nat.eqb_eq. lia. }
  cbn [negb]. by eexists.
Qed.

(** What a call of the network's [forward] does on an input it accepts. *)
Lemma network_forward_run n ops classes (m : PCDARTSLightningModule.t) x :
  well_built n ops classes m → 5 ≤ ops →
  channels x = 3 → 1 ≤ height x → 1 ≤ width x →
  (PCDARTSLightningModule.training m = true → batch x * height x * width x ≠ 1) →
  ∃ logits st',
    PCDARTSLightningModule.forward x m =
      (Returns logits,
       PCDARTSLightningModule.Make (PCDARTSLightningModule.config m)
         (PCDARTSLightningModule.training m) st'
         (PCDARTSLightningModule.search_space m)
         (PCDARTSLightningModule.classifier m)) ∧
    rows logits = batch x ∧ cols logits = classes ∧
    is_stem st' ∧
    kernels st' = kernels (PCDARTSLightningModule.stem m) ∧
    batch_counters st' =
      (if PCDARTSLightningModule.training m
       then (λ z, z + 1)%Z <$> batch_counters (PCDARTSLightningModule.stem m)
       else batch_counters (PCDARTSLightningModule.stem m)) ∧
    (PCDARTSLightningModule.training m = false → st' = PCDARTSLightningModule.stem m).
Proof.
  intros (Hstem & Hn & Hreg & Hstore & Hin & Hout) Hops Hc Hh Hw Hm.
  destruct (stem_forward _ _ x Hstem Hc Hh Hw Hm)
    as (y & st' & Hy & Hsy & Hst' & Hk & Hcount & Heval).
  pose proof Hsy as Hsy'. unfold shape in Hsy'. injection Hsy' as Hby Hcy Hhy Hwy.
  destruct (configured_cell_returns _ 64 n ops y Hreg Hstore Hn Hops)
    as (z & Hz & Hsz).
  { rewrite Hsy. repeat split; simpl; lia. }
  pose proof Hsz as Hsz'. unfold shape in Hsz'. injection Hsz' as Hbz Hcz Hhz Hwz.
  destruct (classify_returns (PCDARTSLightningModule.classifier m) z)
    as (logits & Hlogits & Hrows & Hcols); [lia | lia | lia |].
  unfold PCDARTSLightningModule.forward.
  rewrite Hy, forward_outcome, Hz, Hlogits. cbn [of_result].
  exists logits, st'. split; [done|].
  split; [lia|]. split; [lia|]. by do 3 (split; [done|]).
Qed.

(** X10. A network as [__init__] builds it, with at least five logits per
    edge, maps a batch of three-channel images at least one pixel high and
    wide to one row of [num_classes] logits per image, in training mode
    unless the batch is a single image of a single pixel, and in evaluation
    mode always. It is then still a network as built, so the next call
    does the same. *)
Theorem network_returns_logits n ops classes (m : PCDARTSLightningModule.t) x :
  well_built n ops classes m → 5 ≤ ops →
  channels x = 3 → 1 ≤ height x → 1 ≤ width x →
  (PCDARTSLightningModule.training m = true → batch x * height x * width x ≠ 1) →
  ∃ logits m',
    PCDARTSLightningModule.forward x m = (Returns logits, m') ∧
    rows logits = batch x ∧ cols logits = classes ∧
    well_built n ops classes m' ∧
    PCDARTSLightningModule.training m' = PCDARTSLightningModule.training m.
Proof.
  intros Hbuilt Hops Hc Hh Hw Hm.
  destruct (network_forward_run n ops classes m x Hbuilt Hops Hc Hh Hw Hm)
    as (logits & st' & Hrun & Hrows & Hcols & Hst' & _).
  destruct Hbuilt as (_ & Hn & Hreg & Hstore & Hin & Hout).
  eexists _, _. split; [exact Hrun|]. split; [done|]. split; [done|].
  split; [|done]. unfold well_built. cbn. by do 5 (split; [done|]).
Qed.

(** ** Construction of the network *)

Lemma new_Conv2d_any cin cout k p draw :
  (0 ≤ cin)%Z → (0 ≤ cout)%Z →
  ∃ w, new_Conv2d cin cout k p draw = Ok (Conv2d (Z.to_nat cin) (Z.to_nat cout) k p w).
Proof.
  intros Hi Ho. unfold new_Conv2d.
  apply Z.ltb_ge in Hi. apply Z.ltb_ge in Ho. rewrite Hi, Ho. by eexists.
Qed.

Lemma new_Linear_total in_f out_f dw db :
  (0 ≤ out_f)%Z →
  ∃ l, new_Linear in_f out_f dw db = Ok l ∧
       in_features l = in_f ∧ out_features l = Z.to_nat out_f.
Proof.
  intros Ho. unfold new_Linear. apply Z.ltb_ge in Ho. rewrite Ho. by eexists.
Qed.

(** The part of the constructor before the configuration is read: the
    stem, and its channel count. *)
Lemma init_reads_config d cfg :
  ∃ st, is_stem st ∧ batch_counters st = [0; 0; 0]%Z ∧
    PCDARTSLightningModule.__init__ d cfg =
    (num_nodes <- subscript cfg "model" "num_nodes" ;;
     num_ops <- subscript cfg "model" "num_ops" ;;
     search_space <- of_result (__init__ (cell_draws d) num_nodes num_ops 64) ;;
     num_classes <- subscript cfg "model" "num_classes" ;;
     head <- of_result (new_Linear 64 num_classes (linear_weight d) (linear_bias d)) ;;
     Returns (PCDARTSLightningModule.Make cfg true st search_space head))%out.
Proof.
  unfold PCDARTSLightningModule.__init__.
  destruct (new_Conv2d_any 3 16 3 1 (stem_kernel_1 d)) as [w1 ->]; [lia | lia |].
  destruct (new_Conv2d_any 16 32 3 1 (stem_kernel_2 d)) as [w2 ->]; [lia | lia |].
  destruct (new_Conv2d_any 32 64 3 1 (stem_kernel_3 d)) as [w3 ->]; [lia | lia |].
  cbn [of_result obind].
  exists (Sequential [Op (Conv2d 3 16 3 1 w1); new_BatchNorm2d 16; ReLU;
                      Op (Conv2d 16 32 3 1 w2); new_BatchNorm2d 32; ReLU;
                      Op (Conv2d 32 64 3 1 w3); new_BatchNorm2d 64; ReLU]).
  split; [by eexists _, _, _, _, _, _|]. split; [reflexivity|].
  reflexivity.
Qed.

Lemma init_well_built d cfg n ops classes :
  subscript cfg "model" "num_nodes" = Returns n →
  subscript cfg "model" "num_ops" = Returns ops →
  subscript cfg "model" "num_classes" = Returns classes →
  (n ≤ 0 ∨ 0 ≤ ops)%Z → (0 ≤ classes)%Z →
  ∃ m, PCDARTSLightningModule.__init__ d cfg = Returns m ∧
       __init__ (cell_draws d) n ops 64 = Ok (PCDARTSLightningModule.search_space m) ∧
       PCDARTSLightningModule.training m = true ∧
       PCDARTSLightningModule.config m = cfg ∧
       batch_counters (PCDARTSLightningModule.stem m) = [0; 0; 0]%Z ∧
       well_built (Z.to_nat n) (Z.to_nat ops) (Z.to_nat classes) m.
Proof.
  intros Hn Hops Hclasses Hcell Hpos.
  destruct (init_reads_config d cfg) as (st & Hst & Hcount & ->).
  rewrite Hn, Hops. cbn [obind].
  destruct (init_total (cell_draws d) n ops 64) as [s Hs]; [lia | done |].
  rewrite Hs, Hclasses. cbn [obind of_result].
  destruct (new_Linear_total 64 classes (linear_weight d) (linear_bias d) Hpos)
    as (l & -> & Hin & Hout).
  cbn [obind of_result]. eexists. split; [done|]. cbn.
  do 4 (split; [done|]).
  pose proof (init_store_shaped _ _ _ _ _ Hs) as Hstore.
  apply init_ok in Hs as (Hnodes & _ & _ & _ & Hreg & _).
  unfold well_built. cbn. rewrite Hnodes. by do 5 (split; [done|]).
Qed.





Lemma example_network_built :
  well_built 1 5 10 example_network ∧
  PCDARTSLightningModule.training example_network = true ∧
  batch_counters (PCDARTSLightningModule.stem example_network) = [0; 0; 0]%Z.
Proof.
  destruct (init_well_built zero_network_draws (model_config 1 5 10) 1 5 10)
    as (m & H1 & _ & H2 & _ & H3 & H4);
    [reflexivity | reflexivity | reflexivity | lia | lia |].
  unfold example_network. by rewrite H1.
Qed.

Lemma network_returns_logits_witness :
  ∃ logits m',
    PCDARTSLightningModule.forward two_images example_network = (Returns logits, m') ∧
    rows logits = batch two_images ∧ cols logits = 10 ∧
    well_built 1 5 10 m' ∧
    PCDARTSLightningModule.training m' = PCDARTSLightningModule.training example_network.
Proof.
  destruct example_network_built as (Hbuilt & Htr & _).
  apply (network_returns_logits 1 5 10 example_network two_images Hbuilt);
    [lia | reflexivity | simpl; lia | simpl; lia | simpl; lia].
Defined.

(** ** What the network's forward pass writes *)

(** X13. Whatever the outcome, the network's [forward] leaves the
    configuration, the mode, the cell with its architecture parameters and
    the classifier as they were; in evaluation mode it leaves the whole
    module as it was. Only the buffers of the stem can change, and only in
    training mode. *)
Theorem network_forward_writes_stem_only (m : PCDARTSLightningModule.t) x :
  PCDARTSLightningModule.config (PCDARTSLightningModule.forward x m).2
    = PCDARTSLightningModule.config m ∧
  PCDARTSLightningModule.training (PCDARTSLightningModule.forward x m).2
    = PCDARTSLightningModule.training m ∧
  PCDARTSLightningModule.search_space (PCDARTSLightningModule.forward x m).2
    = PCDARTSLightningModule.search_space m ∧
  PCDARTSLightningModule.classifier (PCDARTSLightningModule.forward x m).2
    = PCDARTSLightningModule.classifier m ∧
  (PCDARTSLightningModule.training m = false →
     (PCDARTSLightningModule.forward x m).2 = m).
Proof.
  unfold PCDARTSLightningModule.forward.
  pose proof (apply_layer_eval (PCDARTSLightningModule.stem m) x) as Heval.
  destruct m as [cfg tr st cell head].
  cbn [PCDARTSLightningModule.config PCDARTSLightningModule.training
       PCDARTSLightningModule.stem PCDARTSLightningModule.search_space
       PCDARTSLightningModule.classifier] in *.
  destruct (apply_layer tr st x) as [[y|e] st'] eqn:E.
  - rewrite forward_outcome.
    destruct (run (forward y) cell) as [z|e]; cbn [snd];
      (do 4 (split; [done|])); intros ->; rewrite E in Heval; cbn in Heval;
      by subst.
  - cbn [snd]. do 4 (split; [done|]). intros ->. rewrite E in Heval.
    cbn in Heval. by subst.
Qed.

(** A training-mode call does write. *)
Remark training_forward_writes :
  ∃ logits m',
    PCDARTSLightningModule.forward two_images example_network = (Returns logits, m') ∧
    m' ≠ example_network.
Proof.
  destruct example_network_built as (Hbuilt & Htr & Hzero).
  destruct (network_forward_run 1 5 10 example_network two_images Hbuilt)
    as (logits & st' & Hrun & _ & _ & _ & _ & Hcount & _);
    [lia | reflexivity | simpl; lia | simpl; lia | simpl; lia |].
  eexists _, _. split; [exact Hrun|]. intros Heq.
  apply (f_equal (λ m, batch_counters (PCDARTSLightningModule.stem m))) in Heq.
  cbn [PCDARTSLightningModule.stem] in Heq.
  rewrite Hcount, Htr, Hzero in Heq. done.
Qed.

(** X14. A successful call in training mode makes each of the three
    normalisations of the stem count the batch, once, and changes no
    kernel of the stem. *)
Theorem training_counts_the_batch n ops classes (m : PCDARTSLightningModule.t) x :
  well_built n ops classes m → 5 ≤ ops →
  PCDARTSLightningModule.training m = true →
  channels x = 3 → 1 ≤ height x → 1 ≤ width x →
  batch x * height x * width x ≠ 1 →
  ∃ logits m',
    PCDARTSLightningModule.forward x m = (Returns logits, m') ∧
    batch_counters (PCDARTSLightningModule.stem m') =
      (λ z, z + 1)%Z <$> batch_counters (PCDARTSLightningModule.stem m) ∧
    length (batch_counters (PCDARTSLightningModule.stem m')) = 3 ∧
    kernels (PCDARTSLightningModule.stem m') = kernels (PCDARTSLightningModule.stem m).
Proof.
  intros Hbuilt Hops Htr Hc Hh Hw Hm.
  destruct (network_forward_run n ops classes m x Hbuilt Hops Hc Hh Hw)
    as (logits & st' & Hrun & _ & _ & Hst' & Hk & Hcount & _); [done|].
  rewrite Htr in Hcount.
  eexists _, _. split; [exact Hrun|]. cbn.
  split; [done|]. split; [|done].
  by destruct Hst' as (? & ? & ? & ? & ? & ? & ->).
Qed.

Lemma training_counts_the_batch_witness :
  ∃ logits m',
    PCDARTSLightningModule.forward two_images example_network = (Returns logits, m') ∧
    batch_counters (PCDARTSLightningModule.stem m') =
      (λ z, z + 1)%Z <$> batch_counters (PCDARTSLightningModule.stem example_network) ∧
    length (batch_counters (PCDARTSLightningModule.stem m')) = 3 ∧
    kernels (PCDARTSLightningModule.stem m') =
      kernels (PCDARTSLightningModule.stem example_network).
Proof.
  destruct example_network_built as (Hbuilt & Htr & _).
  apply (training_counts_the_batch 1 5 10 example_network two_images Hbuilt);
    [lia | exact Htr | reflexivity | simpl; lia | simpl; lia | simpl; lia].
Defined.

(** ** Inputs the network refuses *)

(** X15. A batch made of a single image of a single pixel is refused in
    training mode: the first normalisation raises [ValueError], having
    already counted the batch, so the module is changed although the call
    failed. In evaluation mode the same batch gives logits. *)
Theorem single_pixel_batch n ops classes (m : PCDARTSLightningModule.t) x :
  well_built n ops classes m → 5 ≤ ops →
  channels x = 3 → batch x = 1 → height x = 1 → width x = 1 →
  (PCDARTSLightningModule.training m = true →
     ∃ m' c1 c2 c3,
       PCDARTSLightningModule.forward x m = (Raises ValueError, m') ∧
       batch_counters (PCDARTSLightningModule.stem m) = [c1; c2; c3] ∧
       batch_counters (PCDARTSLightningModule.stem m') = [(c1 + 1)%Z; c2; c3]) ∧
  (PCDARTSLightningModule.training m = false →
     ∃ logits, PCDARTSLightningModule.forward x m = (Returns logits, m) ∧
               rows logits = 1 ∧ cols logits = classes).
Proof.
  intros Hbuilt Hops Hc Hb Hh Hw. split.
  - intros Htr. destruct Hbuilt as ((w1 & w2 & w3 & b1 & b2 & b3 & Hst) & _).
    unfold PCDARTSLightningModule.forward. rewrite Htr, Hst, apply_layer_Sequential.
    destruct (conv2d_same_size 3 16 w1 x Hc) as (y1 & Hy1 & Hs1); [lia | lia |].
    unfold shape in Hs1. injection Hs1 as Hb1 Hc1 Hh1 Hw1.
    cbn [apply_layers apply_layer apply_module]. rewrite Hy1. cbn [of_result].
    rewrite batch_norm_single_value by (rewrite Hb1, Hh1, Hw1, Hb, Hh, Hw; done).
    eexists _, _, _, _. split; [done|]. by split.
  - intros Htr.
    destruct (network_forward_run n ops classes m x Hbuilt Hops Hc)
      as (logits & st' & Hrun & Hrows & Hcols & _ & _ & _ & Heval);
      [lia | lia | by rewrite Htr |].
    exists logits. rewrite Hrun, (Heval Htr). split; [|split; [lia | done]].
    by destruct m.
Qed.

Lemma single_pixel_batch_witness :
  ∃ m' c1 c2 c3,
    PCDARTSLightningModule.forward one_dot example_network = (Raises ValueError, m') ∧
    batch_counters (PCDARTSLightningModule.stem example_network) = [c1; c2; c3] ∧
    batch_counters (PCDARTSLightningModule.stem m') = [(c1 + 1)%Z; c2; c3].
Proof.
  destruct example_network_built as (Hbuilt & Htr & _).
  destruct (single_pixel_batch 1 5 10 example_network one_dot Hbuilt) as [H _];
    [lia | reflexivity | reflexivity | reflexivity | reflexivity |].
  exact (H Htr).
Defined.

(** X16. An input whose channel count is not 3 is refused by the first
    convolution of the stem with [RuntimeError], in either mode, and the
    module is left as it was. *)
Theorem wrong_image_channels (m : PCDARTSLightningModule.t) x :
  is_stem (PCDARTSLightningModule.stem m) →
  channels x ≠ 3 →
  PCDARTSLightningModule.forward x m = (Raises (Backend RuntimeError), m).
Proof.
  intros (w1 & w2 & w3 & b1 & b2 & b3 & Hst) Hc.
  unfold PCDARTSLightningModule.forward. rewrite Hst, apply_layer_Sequential.
  cbn [apply_layers apply_layer apply_module]. unfold conv2d.
  apply Nat.eqb_neq in Hc. rewrite Hc. cbn [negb of_result].
  rewrite <- Hst. by destruct m.
Qed.

Lemma wrong_image_channels_witness :
  PCDARTSLightningModule.forward pixel_row example_network =
  (Raises (Backend RuntimeError), example_network).
Proof.
  apply wrong_image_channels; [|simpl; lia].
  by destruct example_network_built as ((Hstem & _) & _).
Defined.

(** * The training and validation steps *)










Lemma cross_entropy_label_count logits (y : list nat) :
  rows logits ≠ length y → cross_entropy logits y = Raises ValueError.
Proof.
  intros H. unfold cross_entropy. apply Nat.eqb_neq in H. by rewrite H.
Qed.

Lemma cross_entropy_label_range logits (y : list nat) :
  rows logits = length y → Exists (λ t, cols logits ≤ t) y →
  cross_entropy logits y = Raises (Backend IndexError).
Proof.
  intros Hrows Hy. unfold cross_entropy.
  apply Nat.eqb_eq in Hrows. rewrite Hrows. cbn [negb].
  assert (forallb (λ t, t <? cols logits) y = false) as ->; [|done].
  apply not_true_is_false. intros Hall.
  apply Exists_exists in Hy as (t & Ht & Hle).
  apply list_elem_of_In in Ht.
  apply (proj1 (forallb_forall _ _) Hall), Nat.ltb_lt in Ht. lia.
Qed.





(** X19. When the labels are not as many as the images, both steps raise
    [ValueError]; when they are, but one of them is no class, both raise
    [IndexError]. Nothing is logged, and the forward pass has already run:
    the module afterwards is the one [forward] leaves. *)
Theorem bad_labels_raise n ops classes (m : PCDARTSLightningModule.t) x y :
  well_built n ops classes m → 5 ≤ ops →
  channels x = 3 → 1 ≤ height x → 1 ≤ width x →
  (PCDARTSLightningModule.training m = true → batch x * height x * width x ≠ 1) →
  (length y ≠ batch x →
     PCDARTSLightningModule.training_step (x, y) m =
       (Raises ValueError, [], (PCDARTSLightningModule.forward x m).2) ∧
     PCDARTSLightningModule.validation_step (x, y) m =
       (Raises ValueError, [], (PCDARTSLightningModule.forward x m).2)) ∧
  (length y = batch x → Exists (λ t, classes ≤ t) y →
     PCDARTSLightningModule.training_step (x, y) m =
       (Raises (Backend IndexError), [], (PCDARTSLightningModule.forward x m).2) ∧
     PCDARTSLightningModule.validation_step (x, y) m =
       (Raises (Backend IndexError), [], (PCDARTSLightningModule.forward x m).2)).
Proof.
  intros Hbuilt Hops Hc Hh Hw Hm.
  destruct (network_forward_run n ops classes m x Hbuilt Hops Hc Hh Hw Hm)
    as (logits & st' & Hrun & Hrows & Hcols & _).
  unfold PCDARTSLightningModule.training_step, PCDARTSLightningModule.validation_step.
  rewrite Hrun. split.
  - intros Hlen. by rewrite cross_entropy_label_count by lia.
  - intros Hlen Hy. by rewrite cross_entropy_label_range by (lia || by rewrite Hcols).
Qed.

Lemma bad_labels_raise_witness :
  PCDARTSLightningModule.training_step (two_images, [3; 10]) example_network =
    (Raises (Backend IndexError), [],
     (PCDARTSLightningModule.forward two_images example_network).2) ∧
  PCDARTSLightningModule.validation_step (two_images, [3; 10]) example_network =
    (Raises (Backend IndexError), [],
     (PCDARTSLightningModule.forward two_images example_network).2).
Proof.
  destruct example_network_built as (Hbuilt & _).
  destruct (bad_labels_raise 1 5 10 example_network two_images [3; 10] Hbuilt)
    as [_ H]; [lia | reflexivity | simpl; lia | simpl; lia | simpl; lia |].
  apply H; [reflexivity|]. apply Exists_cons_tl, Exists_cons_hd. lia.
Defined.

(** * The data module *)

Lemma random_split_two randperm (files : list sample) a b :
  length files = a + b →
  random_split randperm files [a; b] =
    Returns [Subset files (take a (randperm (a + b)));
             Subset files (take b (drop a (randperm (a + b))))].
Proof.
  intros Hlen. unfold random_split.
  assert (sum_list [a; b] = a + b) as -> by (simpl; lia).
  assert ((a + b =? length files) = true) as -> by (apply Nat.eqb_eq; lia).
  reflexivity.
Qed.


Lemma split_lengths : Z.to_nat 45000 + Z.to_nat 5000 = Z.to_nat 50000.
Proof. lia. Qed.

Lemma fit_stage_splits fs randperm (dm : CIFAR10DataModule.t) files :
  fs (CIFAR10DataModule.data_dir dm) true = Some files →
  length files = Z.to_nat 50000 →
  CIFAR10DataModule.fit_stage fs randperm dm =
    (Returns (),
     CIFAR10DataModule.Make (CIFAR10DataModule.data_dir dm)
       (CIFAR10DataModule.batch_size dm) (CIFAR10DataModule.num_workers dm)
       (Some (Subset files (take (Z.to_nat 45000) (randperm (Z.to_nat 50000)))))
       (Some (Subset files (take (Z.to_nat 5000)
                              (drop (Z.to_nat 45000) (randperm (Z.to_nat 50000))))))
       (CIFAR10DataModule.cifar_test dm)).
Proof.
  intros Hfs Hlen. unfold CIFAR10DataModule.fit_stage, CIFAR10.
  rewrite Hfs, random_split_two by (rewrite split_lengths; exact Hlen).
  by rewrite split_lengths.
Qed.


Lemma is_stage_other s name : s ≠ name → CIFAR10DataModule.is_stage (Some s) name = false.
Proof. intros Hs. unfold CIFAR10DataModule.is_stage. by rewrite bool_decide_false. Qed.

Lemma is_stage_same name : CIFAR10DataModule.is_stage (Some name) name = true.
Proof. unfold CIFAR10DataModule.is_stage. by rewrite bool_decide_true. Qed.

Lemma data_module_eta (dm : CIFAR10DataModule.t) :
  CIFAR10DataModule.Make (CIFAR10DataModule.data_dir dm)
    (CIFAR10DataModule.batch_size dm) (CIFAR10DataModule.num_workers dm)
    (CIFAR10DataModule.cifar_train dm) (CIFAR10DataModule.cifar_val dm)
    (CIFAR10DataModule.cifar_test dm) = dm.
Proof. by destruct dm. Qed.

(** [setup] writes the three datasets and nothing else. *)
Lemma setup_keeps_settings fs randperm stage (dm : CIFAR10DataModule.t) :
  let dm' := (CIFAR10DataModule.setup fs randperm stage dm).2 in
  CIFAR10DataModule.data_dir dm' = CIFAR10DataModule.data_dir dm ∧
  CIFAR10DataModule.batch_size dm' = CIFAR10DataModule.batch_size dm ∧
  CIFAR10DataModule.num_workers dm' = CIFAR10DataModule.num_workers dm.
Proof.
  assert (Hfit : ∀ d, let d' := (CIFAR10DataModule.fit_stage fs randperm d).2 in
    CIFAR10DataModule.data_dir d' = CIFAR10DataModule.data_dir d ∧
    CIFAR10DataModule.batch_size d' = CIFAR10DataModule.batch_size d ∧
    CIFAR10DataModule.num_workers d' = CIFAR10DataModule.num_workers d).
  { intros d. unfold CIFAR10DataModule.fit_stage.
    destruct (CIFAR10 _ _ _) as [files|]; [|done].
    destruct (random_split _ _ _) as [[|? [|? [|? ?]]]|]; done. }
  assert (Htest : ∀ d, let d' := (CIFAR10DataModule.test_stage fs d).2 in
    CIFAR10DataModule.data_dir d' = CIFAR10DataModule.data_dir d ∧
    CIFAR10DataModule.batch_size d' = CIFAR10DataModule.batch_size d ∧
    CIFAR10DataModule.num_workers d' = CIFAR10DataModule.num_workers d).
  { intros d. unfold CIFAR10DataModule.test_stage.
    by destruct (CIFAR10 _ _ _). }
  unfold CIFAR10DataModule.setup.
  destruct (CIFAR10DataModule.is_stage stage "fit").
  - specialize (Hfit dm).
    destruct (CIFAR10DataModule.fit_stage fs randperm dm) as [[[]|e] d1]; [|done].
    destruct (CIFAR10DataModule.is_stage stage "test"); [|done].
    specialize (Htest d1). cbn [snd] in *.
    destruct Hfit as (H1 & H2 & H3), Htest as (H4 & H5 & H6).
    cbn zeta. cbn [snd]. by rewrite H4, H5, H6.
  - destruct (CIFAR10DataModule.is_stage stage "test"); [|done].
    exact (Htest dm).
Qed.

Lemma DataLoader_needs_a_worker d batch_size shuffle num_workers :
  (num_workers <= 0)%Z →
  DataLoader d batch_size shuffle num_workers true = Raises ValueError.
Proof.
  intros H. unfold DataLoader.
  destruct (Z.ltb_spec num_workers 0); [done|].
  assert (num_workers = 0%Z) as -> by lia. done.
Qed.

Lemma DataLoader_returns d batch_size shuffle num_workers :
  (0 < num_workers)%Z → (0 < batch_size)%Z → (shuffle = true → 0 < len d) →
  DataLoader d batch_size shuffle num_workers true =
    Returns (Loader d batch_size shuffle num_workers).
Proof.
  intros Hw Hb Hd. unfold DataLoader.
  destruct (Z.ltb_spec num_workers 0); [lia|].
  destruct (Z.eqb_spec num_workers 0); [lia|].
  destruct (Z.leb_spec batch_size 0); [lia|].
  destruct shuffle; [|done].
  destruct (Nat.eqb_spec (len d) 0); [|done].
  specialize (Hd eq_refl). lia.
Qed.





(** X22. A stage other than ["fit"] and ["test"], such as ["validate"] or
    ["predict"], makes [setup] return without reading the directory and
    without assigning anything; on a module that has not been set up the
    validation loader then raises [AttributeError]. *)
Theorem other_stages_assign_nothing fs randperm s (dm : CIFAR10DataModule.t) :
  s ≠ "fit" → s ≠ "test" →
  CIFAR10DataModule.setup fs randperm (Some s) dm = (Returns (), dm) ∧
  (fresh dm →
   CIFAR10DataModule.val_dataloader
     (CIFAR10DataModule.setup fs randperm (Some s) dm).2 =
     Raises (AttributeError "cifar_val")).
Proof.
  intros Hfit Htest.
  assert (Hsetup : CIFAR10DataModule.setup fs randperm (Some s) dm = (Returns (), dm)).
  { unfold CIFAR10DataModule.setup. by rewrite !is_stage_other. }
  split; [done|]. intros (_ & Hval & _). rewrite Hsetup. cbn [snd].
  unfold CIFAR10DataModule.val_dataloader. by rewrite Hval.
Qed.

Lemma other_stages_assign_nothing_witness :
  CIFAR10DataModule.setup (directory (Z.to_nat 50000) (Z.to_nat 10000)) (seq 0)
    (Some "validate") (new_data_module "data" 64 4) =
    (Returns (), new_data_module "data" 64 4) ∧
  (fresh (new_data_module "data" 64 4) →
   CIFAR10DataModule.val_dataloader
     (CIFAR10DataModule.setup (directory (Z.to_nat 50000) (Z.to_nat 10000)) (seq 0)
        (Some "validate") (new_data_module "data" 64 4)).2 =
     Raises (AttributeError "cifar_val")).
Proof.
  apply (other_stages_assign_nothing (directory (Z.to_nat 50000) (Z.to_nat 10000))
           (seq 0) "validate" (new_data_module "data" 64 4)); discriminate.
Defined.

(** X23. Each stage assigns its own datasets only. After [setup("test")]
    on a module not set up before, the training and validation loaders
    raise [AttributeError]; after [setup("fit")] the test loader does.
    This holds whether [setup] returned or raised. *)
Theorem stages_assign_their_own fs randperm (dm : CIFAR10DataModule.t) :
  fresh dm →
  CIFAR10DataModule.train_dataloader
    (CIFAR10DataModule.setup fs randperm (Some "test") dm).2 =
    Raises (AttributeError "cifar_train") ∧
  CIFAR10DataModule.val_dataloader
    (CIFAR10DataModule.setup fs randperm (Some "test") dm).2 =
    Raises (AttributeError "cifar_val") ∧
  CIFAR10DataModule.test_dataloader
    (CIFAR10DataModule.setup fs randperm (Some "fit") dm).2 =
    Raises (AttributeError "cifar_test").
Proof.
  intros (Htrain & Hval & Htest).
  unfold CIFAR10DataModule.setup.
  rewrite is_stage_same, !is_stage_other by done. rewrite is_stage_same.
  unfold CIFAR10DataModule.train_dataloader, CIFAR10DataModule.val_dataloader,
    CIFAR10DataModule.test_dataloader.
  split; [|split].
  - unfold CIFAR10DataModule.test_stage.
    destruct (CIFAR10 _ _ _); cbn [snd CIFAR10DataModule.cifar_train];
      by rewrite Htrain.
  - unfold CIFAR10DataModule.test_stage.
    destruct (CIFAR10 _ _ _); cbn [snd CIFAR10DataModule.cifar_val];
      by rewrite Hval.
  - unfold CIFAR10DataModule.fit_stage.
    destruct (CIFAR10 _ _ _) as [files|]; [|by cbn [snd]; rewrite Htest].
    destruct (random_split _ _ _) as [[|? [|? [|? ?]]]|];
      cbn [snd CIFAR10DataModule.cifar_test]; by rewrite Htest.
Qed.

Lemma stages_assign_their_own_witness :
  CIFAR10DataModule.train_dataloader
    (CIFAR10DataModule.setup (directory 3 2) (seq 0) (Some "test")
       (new_data_module "data" 64 4)).2 =
    Raises (AttributeError "cifar_train") ∧
  CIFAR10DataModule.val_dataloader
    (CIFAR10DataModule.setup (directory 3 2) (seq 0) (Some "test")
       (new_data_module "data" 64 4)).2 =
    Raises (AttributeError "cifar_val") ∧
  CIFAR10DataModule.test_dataloader
    (CIFAR10DataModule.setup (directory 3 2) (seq 0) (Some "fit")
       (new_data_module "data" 64 4)).2 =
    Raises (AttributeError "cifar_test").
Proof.
  apply (stages_assign_their_own (directory 3 2) (seq 0) (new_data_module "data" 64 4)).
  by repeat split.
Defined.

(** X24. With [num_workers] zero or negative no loader is ever
    constructed: whatever [setup] did before, each of the three loaders
    raises, [ValueError] where its dataset has been assigned. *)
Theorem loaders_need_a_worker fs randperm stage (dm : CIFAR10DataModule.t) :
  (CIFAR10DataModule.num_workers dm <= 0)%Z →
  let dm' := (CIFAR10DataModule.setup fs randperm stage dm).2 in
  CIFAR10DataModule.train_dataloader dm' =
    Raises (match CIFAR10DataModule.cifar_train dm' with
            | Some _ => ValueError
            | None => AttributeError "cifar_train"
            end) ∧
  CIFAR10DataModule.val_dataloader dm' =
    Raises (match CIFAR10DataModule.cifar_val dm' with
            | Some _ => ValueError
            | None => AttributeError "cifar_val"
            end) ∧
  CIFAR10DataModule.test_dataloader dm' =
    Raises (match CIFAR10DataModule.cifar_test dm' with
            | Some _ => ValueError
            | None => AttributeError "cifar_test"
            end).
Proof.
  intros Hw dm'.
  destruct (setup_keeps_settings fs randperm stage dm) as (_ & _ & Hsame).
  fold dm' in Hsame. rewrite <- Hsame in Hw. clearbody dm'.
  unfold CIFAR10DataModule.train_dataloader, CIFAR10DataModule.val_dataloader,
    CIFAR10DataModule.test_dataloader.
  destruct dm' as [dir bs nw [tr|] [va|] [te|]]; cbn in *;
    rewrite ?DataLoader_needs_a_worker by done; done.
Qed.

Lemma loaders_need_a_worker_witness :
  let dm' := (CIFAR10DataModule.setup (directory 3 2) (seq 0) (Some "test")
                (new_data_module "data" 64 0)).2 in
  CIFAR10DataModule.train_dataloader dm' =
    Raises (match CIFAR10DataModule.cifar_train dm' with
            | Some _ => ValueError
            | None => AttributeError "cifar_train"
            end) ∧
  CIFAR10DataModule.val_dataloader dm' =
    Raises (match CIFAR10DataModule.cifar_val dm' with
            | Some _ => ValueError
            | None => AttributeError "cifar_val"
            end) ∧
  CIFAR10DataModule.test_dataloader dm' =
    Raises (match CIFAR10DataModule.cifar_test dm' with
            | Some _ => ValueError
            | None => AttributeError "cifar_test"
            end).
Proof.
  apply (loaders_need_a_worker (directory 3 2) (seq 0) (Some "test")
           (new_data_module "data" 64 0)).
  simpl. lia.
Defined.

(** X25. With the 50000 training images and a test split in the
    directory, a positive batch size and at least one worker, [setup()]
    followed by the three loaders succeeds: the training loader shuffles
    45000 images, the validation loader reads 5000 and the test loader
    every test image, both in order. *)
Theorem loaders_after_setup fs randperm (dm : CIFAR10DataModule.t) files tests :
  fs (CIFAR10DataModule.data_dir dm) true = Some files →
  fs (CIFAR10DataModule.data_dir dm) false = Some tests →
  length files = Z.to_nat 50000 →
  length (randperm (Z.to_nat 50000)) = Z.to_nat 50000 →
  (0 < CIFAR10DataModule.batch_size dm)%Z →
  (0 < CIFAR10DataModule.num_workers dm)%Z →
  ∃ dm' train val,
    CIFAR10DataModule.setup fs randperm None dm = (Returns (), dm') ∧
    CIFAR10DataModule.train_dataloader dm' =
      Returns (Loader train (CIFAR10DataModule.batch_size dm) true
                 (CIFAR10DataModule.num_workers dm)) ∧
    CIFAR10DataModule.val_dataloader dm' =
      Returns (Loader val (CIFAR10DataModule.batch_size dm) false
                 (CIFAR10DataModule.num_workers dm)) ∧
    CIFAR10DataModule.test_dataloader dm' =
      Returns (Loader (Images tests) (CIFAR10DataModule.batch_size dm) false
                 (CIFAR10DataModule.num_workers dm)) ∧
    len train = Z.to_nat 45000 ∧ len val = Z.to_nat 5000.
Proof.
  intros Hfs Htests Hlen Hn Hb Hw. do 3 eexists.
  unfold CIFAR10DataModule.setup. cbn [CIFAR10DataModule.is_stage].
  rewrite (fit_stage_splits _ _ _ files Hfs Hlen).
  unfold CIFAR10DataModule.test_stage, CIFAR10.
  cbn [CIFAR10DataModule.data_dir]. rewrite Htests.
  split; [reflexivity|].
  unfold CIFAR10DataModule.train_dataloader, CIFAR10DataModule.val_dataloader,
    CIFAR10DataModule.test_dataloader.
  cbn [CIFAR10DataModule.cifar_train CIFAR10DataModule.cifar_val
       CIFAR10DataModule.cifar_test CIFAR10DataModule.batch_size
       CIFAR10DataModule.num_workers getattr obind].
  assert (Htrain : len (Subset files (take (Z.to_nat 45000) (randperm (Z.to_nat 50000))))
                   = Z.to_nat 45000).
  { cbn [len]. rewrite length_take, Hn. lia. }
  assert (Hval : len (Subset files (take (Z.to_nat 5000)
                   (drop (Z.to_nat 45000) (randperm (Z.to_nat 50000)))))
                 = Z.to_nat 5000).
  { cbn [len]. rewrite length_take, length_drop, Hn. lia. }
  rewrite !DataLoader_returns by (done || (intros _; lia)).
  done.
Qed.

Lemma loaders_after_setup_witness :
  ∃ dm' train val,
    CIFAR10DataModule.setup (directory (Z.to_nat 50000) (Z.to_nat 10000)) (seq 0)
      None (new_data_module "data" 64 4) = (Returns (), dm') ∧
    CIFAR10DataModule.train_dataloader dm' =
      Returns (Loader train
                 (CIFAR10DataModule.batch_size (new_data_module "data" 64 4)) true
                 (CIFAR10DataModule.num_workers (new_data_module "data" 64 4))) ∧
    CIFAR10DataModule.val_dataloader dm' =
      Returns (Loader val
                 (CIFAR10DataModule.batch_size (new_data_module "data" 64 4)) false
                 (CIFAR10DataModule.num_workers (new_data_module "data" 64 4))) ∧
    CIFAR10DataModule.test_dataloader dm' =
      Returns (Loader (Images (replicate (Z.to_nat 10000) (one_dot, 0)))
                 (CIFAR10DataModule.batch_size (new_data_module "data" 64 4)) false
                 (CIFAR10DataModule.num_workers (new_data_module "data" 64 4))) ∧
    len train = Z.to_nat 45000 ∧ len val = Z.to_nat 5000.
Proof.
  apply (loaders_after_setup (directory (Z.to_nat 50000) (Z.to_nat 10000)) (seq 0)
           (new_data_module "data" 64 4)
           (replicate (Z.to_nat 50000) (one_dot, 0))
           (replicate (Z.to_nat 10000) (one_dot, 0))).
  - reflexivity.
  - reflexivity.
  - apply length_replicate.
  - apply length_seq.
  - reflexivity.
  - reflexivity.
Defined.
